(** * Brushless DC motor sizing: [hyperloop/Python/pod/drivetrain/electric_motor.py]

    A shallow embedding of the three OpenMDAO components of the file
    ([MotorSize], [Motor], [MotorBalance]) and of the configuration that
    [MotorGroup.__init__] gives to the coupled solve.

    Numbers.  The program computes on numpy [float64] scalars.  They are
    idealised here as real numbers: [+], [-], [*], [/] are the operations of
    [R], [np.pi] is [PI], [np.sqrt] is [sqrt] and [np.power] is [np_power]
    below.  Rounding, overflow and the non-finite values ([inf], [nan]) that
    numpy produces on a division by zero are outside this idealisation: the
    statements that compare values (orders, signs, cancellations) carry the
    hypotheses that keep the computation away from them, and the statements
    that only say which expression an output holds need none.  The module
    [MotorSize64] repeats the sizing component on binary64 numbers, for the
    statements that rounding decides.

    Errors.  The values read from [params], the literals, [np.pi] and the
    locals computed from them are Python floats: a quotient of two of them
    raises [ZeroDivisionError] when the divisor is zero.  The values read
    from [unknowns] are numpy scalars: a quotient with one of them as an
    operand does not raise.  The source has no [raise] of its own.

    State.  A component reads its inputs from [params] and reads and writes
    its outputs in [unknowns], a vector that lives as long as the component
    and keeps the values of the previous evaluation.  [unknowns] is a record
    that every assignment updates, in the order of the source. *)

From Stdlib Require Import Floats Reals Lra Lia ZArith.

Set Warnings "-inexact-float".

Open Scope R_scope.

(** ** numpy primitives *)

Definition np_pi : R := PI.

(** [np.power(x, y)] on real arguments.  On a positive base it is
    [exp (y * ln x)].  On a base that is not positive numpy is defined when
    the exponent is an integer (repeated product) and when the base is zero
    and the exponent positive (the result is zero); its other results there
    are [inf] or [nan] and have no counterpart in [R]. *)
Definition np_power (x y : R) : R :=
  if Rlt_dec 0 x then Rpower x y
  else if Req_dec_T y (IZR (Int_part y)) then powerRZ x (Int_part y)
  else 0.

Definition np_sqrt (x : R) : R := sqrt x.

(** ** Outcome of a call

    A Python call either returns or raises.  The exceptions are the three
    the specification names and the one Python raises on a division by
    zero. *)

Inductive exn : Set :=
| DomainError
| NonConvergenceError
| LinearSolveError
| ZeroDivisionError.

Inductive outcome (A : Type) : Type :=
| Returns (a : A)
| Raises (e : exn).

Arguments Returns {A} a.
Arguments Raises {A} e.

Definition bind {A B : Type} (m : outcome A) (k : A -> outcome B) : outcome B :=
  match m with
  | Returns a => k a
  | Raises e => Raises e
  end.

Notation "x <- m ;; k" := (bind m (fun x => k))
  (at level 61, m at next level, right associativity).

(** [a / b] on two Python floats. *)
Definition py_div (a b : R) : outcome R :=
  if Req_dec_T b 0 then Raises ZeroDivisionError else Returns (a / b).

(** ** class MotorSize *)

Module MotorSize.

(** The [add_param] declarations of [__init__]. *)
Record Params : Type := mkParams {
  max_current : R;
  speed : R;
  L_D_ratio : R;
  core_radius_ratio : R;
  max_rpm : R;
  pole_pairs : R;
  design_power : R;
  n_phases : R;
  kappa : R
}.

Definition default_params : Params := {|
  max_current := 42.0;
  speed := 2000.0;
  L_D_ratio := 0.822727;
  core_radius_ratio := 0.0;
  max_rpm := 3500.0;
  pole_pairs := 6.0;
  design_power := 0.394 * 746;
  n_phases := 3.0;
  kappa := 1 / 1.75
|}.

(** The [add_output] declarations of [__init__]. *)
Record Unknowns : Type := mkUnknowns {
  d_base : R;
  l_base : R;
  mass : R;
  max_torque : R;
  torque : R;
  w_base : R;
  D2L : R;
  power_mech : R;
  w_operating : R;
  power_iron_loss : R;
  winding_resistance : R;
  power_windage_loss : R
}.

(** The values [__init__] gives the outputs: the content of [unknowns]
    before the first evaluation. *)
Definition init : Unknowns := {|
  d_base := 0.48;
  l_base := 0.4;
  mass := 0.0;
  max_torque := 0.0;
  torque := 1000.0;
  w_base := 3000.0;
  D2L := 1.0;
  power_mech := 0.0;
  w_operating := 0.0;
  power_iron_loss := 0.0;
  winding_resistance := 0.0;
  power_windage_loss := 0.0
|}.

(** [unknowns[name] = v], one function per name. *)
Definition set_d_base (v : R) (u : Unknowns) : Unknowns :=
  mkUnknowns v (l_base u) (mass u) (max_torque u) (torque u) (w_base u)
    (D2L u) (power_mech u) (w_operating u) (power_iron_loss u)
    (winding_resistance u) (power_windage_loss u).
Definition set_l_base (v : R) (u : Unknowns) : Unknowns :=
  mkUnknowns (d_base u) v (mass u) (max_torque u) (torque u) (w_base u)
    (D2L u) (power_mech u) (w_operating u) (power_iron_loss u)
    (winding_resistance u) (power_windage_loss u).
Definition set_mass (v : R) (u : Unknowns) : Unknowns :=
  mkUnknowns (d_base u) (l_base u) v (max_torque u) (torque u) (w_base u)
    (D2L u) (power_mech u) (w_operating u) (power_iron_loss u)
    (winding_resistance u) (power_windage_loss u).
Definition set_max_torque (v : R) (u : Unknowns) : Unknowns :=
  mkUnknowns (d_base u) (l_base u) (mass u) v (torque u) (w_base u)
    (D2L u) (power_mech u) (w_operating u) (power_iron_loss u)
    (winding_resistance u) (power_windage_loss u).
Definition set_torque (v : R) (u : Unknowns) : Unknowns :=
  mkUnknowns (d_base u) (l_base u) (mass u) (max_torque u) v (w_base u)
    (D2L u) (power_mech u) (w_operating u) (power_iron_loss u)
    (winding_resistance u) (power_windage_loss u).
Definition set_w_base (v : R) (u : Unknowns) : Unknowns :=
  mkUnknowns (d_base u) (l_base u) (mass u) (max_torque u) (torque u) v
    (D2L u) (power_mech u) (w_operating u) (power_iron_loss u)
    (winding_resistance u) (power_windage_loss u).
Definition set_D2L (v : R) (u : Unknowns) : Unknowns :=
  mkUnknowns (d_base u) (l_base u) (mass u) (max_torque u) (torque u)
    (w_base u) v (power_mech u) (w_operating u) (power_iron_loss u)
    (winding_resistance u) (power_windage_loss u).
Definition set_power_mech (v : R) (u : Unknowns) : Unknowns :=
  mkUnknowns (d_base u) (l_base u) (mass u) (max_torque u) (torque u)
    (w_base u) (D2L u) v (w_operating u) (power_iron_loss u)
    (winding_resistance u) (power_windage_loss u).
Definition set_w_operating (v : R) (u : Unknowns) : Unknowns :=
  mkUnknowns (d_base u) (l_base u) (mass u) (max_torque u) (torque u)
    (w_base u) (D2L u) (power_mech u) v (power_iron_loss u)
    (winding_resistance u) (power_windage_loss u).
Definition set_power_iron_loss (v : R) (u : Unknowns) : Unknowns :=
  mkUnknowns (d_base u) (l_base u) (mass u) (max_torque u) (torque u)
    (w_base u) (D2L u) (power_mech u) (w_operating u) v
    (winding_resistance u) (power_windage_loss u).
Definition set_winding_resistance (v : R) (u : Unknowns) : Unknowns :=
  mkUnknowns (d_base u) (l_base u) (mass u) (max_torque u) (torque u)
    (w_base u) (D2L u) (power_mech u) (w_operating u) (power_iron_loss u)
    v (power_windage_loss u).
Definition set_power_windage_loss (v : R) (u : Unknowns) : Unknowns :=
  mkUnknowns (d_base u) (l_base u) (mass u) (max_torque u) (torque u)
    (w_base u) (D2L u) (power_mech u) (w_operating u) (power_iron_loss u)
    (winding_resistance u) v.

(** [calculate_windage_loss]: the body is [return 0]. *)
Definition calculate_windage_loss (w_operating d_base l_base : R) : R := 0.

(** [calculate_copper_loss]. *)
Definition calculate_copper_loss (d_base max_current n_phases : R) : R :=
  let As := 688.7 * max_current in
  let n_coil_turns := As * np_pi * d_base / max_current / n_phases / 2.0 in
  let resistance_per_km_per_turn :=
    48.8387296964863 * np_power max_current (-1.00112597971171) in
  let winding_len := d_base * 3.14159 in
  let resistance_per_turn :=
    resistance_per_km_per_turn * winding_len / 1000.0 in
  resistance_per_turn * n_coil_turns * n_phases.

(** [calculate_iron_loss]. *)
Definition calculate_iron_loss
    (d_base speed l_base core_radius_ratio pole_pairs : R) : R :=
  let stator_core_density := 7650.0 in
  let Kh := 0.0275 in
  let Kc := 1.83e-5 in
  let Ke := 2.77e-5 in
  let Bp := 1.22 in
  let freq := speed * pole_pairs / 60.0 in
  let volume_iron :=
    np_pi * l_base * np_power (d_base / 2.0) 2.0
    * (1.0 - np_power core_radius_ratio 2.0) in
  let iron_core_mass := stator_core_density * volume_iron in
  (Kh * np_power Bp 2.0 * freq + Kc * np_power (Bp * freq) 2.0
   + Ke * np_power (Bp * freq) 1.5) * iron_core_mass.

(** [solve_nonlinear]: the assignments in the order of the source.  Each
    right-hand side reads [unknowns] as the assignments before it left
    it. *)
Definition solve_nonlinear (params : Params) (unknowns : Unknowns)
    : Unknowns :=
  let w_max := max_rpm params * 2.0 * np_pi / 60.0 in
  let unknowns := set_w_base (kappa params * w_max) unknowns in
  let unknowns :=
    set_max_torque (design_power params / w_base unknowns) unknowns in
  let unknowns := set_torque (design_power params / w_max) unknowns in
  let unknowns :=
    set_power_mech (w_operating unknowns * torque unknowns) unknowns in
  let unknowns :=
    set_w_operating (speed params * 2 * np_pi / 60.0) unknowns in
  let unknowns :=
    set_power_iron_loss
      (calculate_iron_loss (d_base unknowns) (speed params)
         (l_base unknowns) (core_radius_ratio params) (pole_pairs params))
      unknowns in
  let unknowns :=
    set_winding_resistance
      (calculate_copper_loss (d_base unknowns) (max_current params)
         (n_phases params))
      unknowns in
  let unknowns :=
    set_power_windage_loss
      (calculate_windage_loss (w_operating unknowns) (d_base unknowns)
         (l_base unknowns))
      unknowns in
  let unknowns :=
    set_D2L (293722.0 * np_power (max_torque unknowns) 0.7592) unknowns in
  let unknowns :=
    set_d_base
      (np_power (D2L unknowns / L_D_ratio params) (1.0 / 3.0) / 1000.0)
      unknowns in
  let unknowns :=
    set_l_base (d_base unknowns * L_D_ratio params) unknowns in
  set_mass (0.0000070646 * np_power (D2L unknowns) 0.9386912061) unknowns.

(** A call of the component, with its error path: the same assignments as
    [solve_nonlinear]; the quotient [design_power / w_max] of the torque
    has two Python floats as operands and raises on [w_max = 0]; the other
    quotients have a non-zero literal as divisor or a value read from
    [unknowns] as an operand. *)
Definition evaluate (params : Params) (unknowns : Unknowns)
    : outcome Unknowns :=
  let w_max := max_rpm params * 2.0 * np_pi / 60.0 in
  let unknowns := set_w_base (kappa params * w_max) unknowns in
  let unknowns :=
    set_max_torque (design_power params / w_base unknowns) unknowns in
  torque' <- py_div (design_power params) w_max ;;
  let unknowns := set_torque torque' unknowns in
  let unknowns :=
    set_power_mech (w_operating unknowns * torque unknowns) unknowns in
  let unknowns :=
    set_w_operating (speed params * 2 * np_pi / 60.0) unknowns in
  let unknowns :=
    set_power_iron_loss
      (calculate_iron_loss (d_base unknowns) (speed params)
         (l_base unknowns) (core_radius_ratio params) (pole_pairs params))
      unknowns in
  let unknowns :=
    set_winding_resistance
      (calculate_copper_loss (d_base unknowns) (max_current params)
         (n_phases params))
      unknowns in
  let unknowns :=
    set_power_windage_loss
      (calculate_windage_loss (w_operating unknowns) (d_base unknowns)
         (l_base unknowns))
      unknowns in
  let unknowns :=
    set_D2L (293722.0 * np_power (max_torque unknowns) 0.7592) unknowns in
  let unknowns :=
    set_d_base
      (np_power (D2L unknowns / L_D_ratio params) (1.0 / 3.0) / 1000.0)
      unknowns in
  let unknowns :=
    set_l_base (d_base unknowns * L_D_ratio params) unknowns in
  Returns
    (set_mass (0.0000070646 * np_power (D2L unknowns) 0.9386912061)
       unknowns).

(** [n] evaluations in a row on the same [unknowns] vector, as the solver
    performs them. *)
Fixpoint run (n : nat) (params : Params) (unknowns : Unknowns) : Unknowns :=
  match n with
  | O => unknowns
  | S n' => run n' params (solve_nonlinear params unknowns)
  end.

(** [prob['design_power'] = v]: the same parameters with another design
    power. *)
Definition with_design_power (v : R) (p : Params) : Params :=
  mkParams (max_current p) (speed p) (L_D_ratio p) (core_radius_ratio p)
    (max_rpm p) (pole_pairs p) v (n_phases p) (kappa p).

(** [prob['motor_size.core_radius_ratio'] = v]. *)
Definition with_core_radius_ratio (v : R) (p : Params) : Params :=
  mkParams (max_current p) (speed p) (L_D_ratio p) v
    (max_rpm p) (pole_pairs p) (design_power p) (n_phases p) (kappa p).

(** [prob['max_current'] = v]. *)
Definition with_max_current (v : R) (p : Params) : Params :=
  mkParams v (speed p) (L_D_ratio p) (core_radius_ratio p)
    (max_rpm p) (pole_pairs p) (design_power p) (n_phases p) (kappa p).

(** The parameters of the run at the end of the file
    ([prob['max_current'] = 450.0] and the lines after it). *)
Definition example_params : Params := {|
  max_current := 450.0;
  speed := 1900.0;
  L_D_ratio := 0.83;
  core_radius_ratio := 0.7;
  max_rpm := 2500.0;
  pole_pairs := 6.0;
  design_power := 110000;
  n_phases := 3.0;
  kappa := 0.5
|}.

End MotorSize.

(** ** class Motor *)

Module Motor.

(** The [add_param] declarations of [__init__]. *)
Record Params : Type := mkParams {
  max_current : R;
  I0 : R;
  n_phases : R;
  w_operating : R;
  pole_pairs : R;
  torque : R;
  winding_resistance : R;
  power_windage_loss : R;
  power_mech : R;
  power_iron_loss : R;
  max_torque : R
}.

(** The [add_output] declarations of [__init__]. *)
Record Unknowns : Type := mkUnknowns {
  current : R;
  phase_current : R;
  voltage : R;
  phase_voltage : R;
  frequency : R;
  power_input : R
}.

Definition init : Unknowns := {|
  current := 2.0;
  phase_current := 1.0;
  voltage := 500.0;
  phase_voltage := 1.0;
  frequency := 60.0;
  power_input := 1.0
|}.

Definition set_current (v : R) (u : Unknowns) : Unknowns :=
  mkUnknowns v (phase_current u) (voltage u) (phase_voltage u) (frequency u)
    (power_input u).
Definition set_phase_current (v : R) (u : Unknowns) : Unknowns :=
  mkUnknowns (current u) v (voltage u) (phase_voltage u) (frequency u)
    (power_input u).
Definition set_voltage (v : R) (u : Unknowns) : Unknowns :=
  mkUnknowns (current u) (phase_current u) v (phase_voltage u) (frequency u)
    (power_input u).
Definition set_phase_voltage (v : R) (u : Unknowns) : Unknowns :=
  mkUnknowns (current u) (phase_current u) (voltage u) v (frequency u)
    (power_input u).
Definition set_frequency (v : R) (u : Unknowns) : Unknowns :=
  mkUnknowns (current u) (phase_current u) (voltage u) (phase_voltage u) v
    (power_input u).
Definition set_power_input (v : R) (u : Unknowns) : Unknowns :=
  mkUnknowns (current u) (phase_current u) (voltage u) (phase_voltage u)
    (frequency u) v.

(** The same inputs with another [n_phases], and with another
    [pole_pairs]. *)
Definition with_n_phases (v : R) (p : Params) : Params :=
  mkParams (max_current p) (I0 p) v (w_operating p)
    (pole_pairs p) (torque p) (winding_resistance p) (power_windage_loss p)
    (power_mech p) (power_iron_loss p) (max_torque p).
Definition with_pole_pairs (v : R) (p : Params) : Params :=
  mkParams (max_current p) (I0 p) (n_phases p) (w_operating p)
    v (torque p) (winding_resistance p) (power_windage_loss p)
    (power_mech p) (power_iron_loss p) (max_torque p).

(** The local [k_v] of [solve_nonlinear], the voltage constant. *)
Definition k_v (params : Params) : R :=
  (max_current params - I0 params) / max_torque params * 30.0 / np_pi.

(** The local [k_t] of [solve_nonlinear], the torque constant. *)
Definition k_t (params : Params) : R :=
  30.0 / np_pi * 1.0 / k_v params.

(** [solve_nonlinear]: [current] is assigned twice, with the same
    right-hand side, as in the source. *)
Definition solve_nonlinear (params : Params) (unknowns : Unknowns)
    : Unknowns :=
  let k_v := k_v params in
  let k_t := k_t params in
  let unknowns := set_current (I0 params + torque params / k_t) unknowns in
  let power_copper_loss :=
    np_power (current unknowns) 2.0 * winding_resistance params in
  let unknowns :=
    set_power_input
      (power_mech params + power_windage_loss params
       + power_iron_loss params + power_copper_loss)
      unknowns in
  let unknowns := set_current (I0 params + torque params / k_t) unknowns in
  let unknowns :=
    set_phase_current (current unknowns / n_phases params) unknowns in
  let unknowns :=
    set_voltage
      (current unknowns * winding_resistance params
       + w_operating params / (k_v * np_pi / 30.0))
      unknowns in
  let unknowns :=
    set_phase_voltage (voltage unknowns * np_sqrt (3.0 / 2.0)) unknowns in
  set_frequency (w_operating params / np_pi * pole_pairs params / 60.0)
    unknowns.

(** A call of the component, with its error path: the same assignments as
    [solve_nonlinear], and no guard on [max_current] or [I0].  The
    quotients by [max_torque], by [k_v], by [k_t] (twice) and by
    [k_v * np.pi / 30.0] have two Python floats as operands and raise on a
    zero divisor; [current / n_phases] has a value read from [unknowns] as
    an operand; the other divisors are non-zero constants. *)
Definition evaluate (params : Params) (unknowns : Unknowns)
    : outcome Unknowns :=
  q <- py_div (max_current params - I0 params) (max_torque params) ;;
  let k_v := q * 30.0 / np_pi in
  k_t <- py_div (30.0 / np_pi * 1.0) k_v ;;
  i <- py_div (torque params) k_t ;;
  let unknowns := set_current (I0 params + i) unknowns in
  let power_copper_loss :=
    np_power (current unknowns) 2.0 * winding_resistance params in
  let unknowns :=
    set_power_input
      (power_mech params + power_windage_loss params
       + power_iron_loss params + power_copper_loss)
      unknowns in
  i <- py_div (torque params) k_t ;;
  let unknowns := set_current (I0 params + i) unknowns in
  let unknowns :=
    set_phase_current (current unknowns / n_phases params) unknowns in
  e <- py_div (w_operating params) (k_v * np_pi / 30.0) ;;
  let unknowns :=
    set_voltage (current unknowns * winding_resistance params + e)
      unknowns in
  let unknowns :=
    set_phase_voltage (voltage unknowns * np_sqrt (3.0 / 2.0)) unknowns in
  Returns
    (set_frequency (w_operating params / np_pi * pole_pairs params / 60.0)
       unknowns).

End Motor.

(** ** class MotorBalance *)

Module MotorBalance.

Record Params : Type := mkParams {
  power_input : R;
  current : R;
  voltage : R
}.

(** [add_state('I0', val=40.0)]. *)
Definition I0_init : R := 40.0.

(** [apply_nonlinear]: the value stored in [resids['I0']]. *)
Definition apply_nonlinear (params : Params) : R :=
  current params * voltage params - power_input params.

End MotorBalance.

(** ** class MotorGroup *)

Module MotorGroup.

(** Options of [self.nl_solver] and [self.ln_solver]. *)
Record NewtonOptions : Type := { nl_maxiter : nat; atol : R }.
Record GMRESOptions : Type := { ln_maxiter : nat }.

Definition nl_solver : NewtonOptions :=
  {| nl_maxiter := 1000; atol := 0.0001 |}.

Definition ln_solver : GMRESOptions := {| ln_maxiter := 100 |}.

(** The [promotes] lists and [connect] calls of [__init__]: what [motor]
    reads, from the design parameters, from the outputs of [motor_size] and
    from the state of [motor_balance]. *)
Definition motor_params (dp : MotorSize.Params) (sz : MotorSize.Unknowns)
    (I0 : R) : Motor.Params := {|
  Motor.max_current := MotorSize.max_current dp;
  Motor.I0 := I0;
  Motor.n_phases := MotorSize.n_phases dp;
  Motor.w_operating := MotorSize.w_operating sz;
  Motor.pole_pairs := MotorSize.pole_pairs dp;
  Motor.torque := MotorSize.torque sz;
  Motor.winding_resistance := MotorSize.winding_resistance sz;
  Motor.power_windage_loss := MotorSize.power_windage_loss sz;
  Motor.power_mech := MotorSize.power_mech sz;
  Motor.power_iron_loss := MotorSize.power_iron_loss sz;
  Motor.max_torque := MotorSize.max_torque sz
|}.

(** [motor_balance] reads the promoted [current], [voltage] and
    [power_input] of [motor]. *)
Definition balance_params (m : Motor.Unknowns) : MotorBalance.Params := {|
  MotorBalance.power_input := Motor.power_input m;
  MotorBalance.current := Motor.current m;
  MotorBalance.voltage := Motor.voltage m
|}.

(** One pass over the components for a guess [I0]: sizing, then the
    electrical model, then the residual of the balance. *)
Definition evaluate_models (dp : MotorSize.Params)
    (sz : MotorSize.Unknowns) (I0 : R) : MotorSize.Unknowns * R :=
  let sz' := MotorSize.solve_nonlinear dp sz in
  let m := Motor.solve_nonlinear (motor_params dp sz' I0) Motor.init in
  (sz', MotorBalance.apply_nonlinear (balance_params m)).

(** The iteration state: the guess, the last residual, the count, the flag,
    and the [unknowns] vector of [motor_size], which persists between
    passes. *)
Record SolverState : Type := mkSolverState {
  I0 : R;
  residual : R;
  iteration : nat;
  converged : bool;
  sizing : MotorSize.Unknowns
}.

(** Modelled from the spec: the state INIT of the solver ([I0 := 40.0], the
    value of [add_state] in [MotorBalance.__init__]; [iteration := 0]).  The
    class [Newton] of [openmdao.api] that holds it is not in the source
    tree. *)
Definition INIT : SolverState := {|
  I0 := MotorBalance.I0_init;
  residual := 0;
  iteration := 0;
  converged := false;
  sizing := MotorSize.init
|}.

(** Modelled from the spec: one ITERATING step before the convergence test
    (the class [Newton] of [openmdao.api] that performs it is not in the
    source tree).  The models are evaluated on the current guess; the
    residual and the sizing outputs are stored in the state. *)
Definition pass (dp : MotorSize.Params) (s : SolverState) : SolverState :=
  let '(sz, r) := evaluate_models dp (sizing s) (I0 s) in
  mkSolverState (I0 s) r (iteration s) false sz.

(** Modelled from the spec: the transition to CONVERGED sets the flag. *)
Definition accept (s : SolverState) : SolverState :=
  mkSolverState (I0 s) (residual s) (iteration s) true (sizing s).

(** Modelled from the spec: the Newton update replaces the guess and
    increments the iteration count. *)
Definition next (s : SolverState) (I0' : R) : SolverState :=
  mkSolverState I0' (residual s) (S (iteration s)) false (sizing s).

(** Modelled from the spec: the Newton iteration of the coupled solver (the
    class [Newton] of [openmdao.api], which is not in the source tree; only
    its options are set in [MotorGroup.__init__]).  Each iteration
    evaluates the models and the residual; it stops in CONVERGED when the
    absolute residual is at most the tolerance; otherwise, when the count
    has reached the cap, it fails with the non-convergence error; otherwise
    it takes the Newton update of the guess and counts one more iteration.
    [newton_update] stands for the linear solve of the Newton direction,
    which can fail with its own error. *)
Fixpoint iterate (newton_update : SolverState -> outcome R)
    (opts : NewtonOptions) (fuel : nat) (dp : MotorSize.Params)
    (s : SolverState) : outcome SolverState :=
  let s := pass dp s in
  if Rle_dec (Rabs (residual s)) (atol opts) then Returns (accept s)
  else
    match fuel with
    | O => Raises NonConvergenceError
    | S fuel' =>
        I0' <- newton_update s ;;
        iterate newton_update opts fuel' dp (next s I0')
    end.

(** Modelled from the spec: a solve starts in INIT and is bounded by the
    iteration cap of [nl_solver]. *)
Definition solve (newton_update : SolverState -> outcome R)
    (dp : MotorSize.Params) : outcome SolverState :=
  iterate newton_update nl_solver (nl_maxiter nl_solver) dp INIT.

(** Modelled from the spec: the state that the pass number [k] from [s]
    leaves, when the convergence test is left out. *)
Fixpoint advance (newton_update : SolverState -> outcome R) (k : nat)
    (dp : MotorSize.Params) (s : SolverState) : outcome SolverState :=
  let s := pass dp s in
  match k with
  | O => Returns s
  | S k' =>
      I0' <- newton_update s ;;
      advance newton_update k' dp (next s I0')
  end.

(** Modelled from the spec: the iterative linear method that solves the
    1x1 system [jac * x = rhs] of the Newton direction (the class
    [ScipyGMRES] of [openmdao.api], which is not in the source tree; only
    its iteration cap is set in [MotorGroup.__init__]).  [ln_step] is one
    iteration of the method and [ln_done] its stopping test. *)
Record LinearMethod : Type := {
  ln_step : R -> R -> R -> R;
  ln_done : R -> R -> R -> bool
}.

(** Modelled from the spec: the derivative of the residual with respect to
    the guess (analytic or approximated) and the damping of the Newton
    step. *)
Record Linearisation : Type := {
  jacobian : SolverState -> R;
  damping : R
}.

(** Modelled from the spec: the linear iteration stops when its test is
    met; when the test is not met and the iteration cap is reached it fails
    with the error of the linear solve. *)
Fixpoint linear_iterate (m : LinearMethod) (fuel : nat) (jac rhs x : R)
    : outcome R :=
  if ln_done m jac rhs x then Returns x
  else
    match fuel with
    | O => Raises LinearSolveError
    | S fuel' => linear_iterate m fuel' jac rhs (ln_step m jac rhs x)
    end.

(** Modelled from the spec: a linear solve starts from zero and is bounded
    by the iteration cap of [ln_solver]. *)
Definition linear_solve (m : LinearMethod) (jac rhs : R) : outcome R :=
  linear_iterate m (ln_maxiter ln_solver) jac rhs 0.

(** Modelled from the spec: the Newton update of the guess.  The direction
    solves [jacobian * d = - residual]; a failure of the linear solve aborts
    the update with its error; the damped step is added to the guess. *)
Definition newton_update (m : LinearMethod) (lz : Linearisation)
    (s : SolverState) : outcome R :=
  d <- linear_solve m (jacobian lz s) (- residual s) ;;
  Returns (I0 s + damping lz * d).

(** Modelled from the spec: the coupled solve, the Newton iteration with
    the update above. *)
Definition coupled_solve (m : LinearMethod) (lz : Linearisation)
    (dp : MotorSize.Params) : outcome SolverState :=
  solve (newton_update m lz) dp.

(** The sizing outputs from the second evaluation on. *)
Definition settled (dp : MotorSize.Params) : MotorSize.Unknowns :=
  MotorSize.run 2 dp MotorSize.init.

(** The guess at which the residual of the balance vanishes on the settled
    sizing outputs: [max_current * P / (w_operating * max_torque + P)] with
    [P] the iron loss.  A Newton update that lands on it is the best case
    of the iteration. *)
Definition balance_root (dp : MotorSize.Params) : R :=
  let sz := settled dp in
  MotorSize.max_current dp * MotorSize.power_iron_loss sz
  / (MotorSize.w_operating sz * MotorSize.max_torque sz
     + MotorSize.power_iron_loss sz).

End MotorGroup.

(** ** class MotorSize on binary64 numbers

    The same component on the numbers the program computes with: the
    operations are those of IEEE 754 binary64, the literals are rounded to
    the nearest binary64 number as Python rounds them.  [np.power] calls the
    [pow] of the C library, which is a parameter here; the C standard fixes
    [pow(1, y) = 1] (C99, F.9.4.4). *)

Module MotorSize64.

#[local] Open Scope float_scope.

Definition np_pi : float := 3.141592653589793.

Definition np_power (libm_pow : float -> float -> float) (x y : float)
    : float :=
  if x =? 1 then 1 else libm_pow x y.

(** [a / b] on two Python floats. *)
Definition py_div (a b : float) : outcome float :=
  if b =? 0 then Raises ZeroDivisionError else Returns (a / b).

Record Params : Type := mkParams {
  max_current : float;
  speed : float;
  L_D_ratio : float;
  core_radius_ratio : float;
  max_rpm : float;
  pole_pairs : float;
  design_power : float;
  n_phases : float;
  kappa : float
}.

Record Unknowns : Type := mkUnknowns {
  d_base : float;
  l_base : float;
  mass : float;
  max_torque : float;
  torque : float;
  w_base : float;
  D2L : float;
  power_mech : float;
  w_operating : float;
  power_iron_loss : float;
  winding_resistance : float;
  power_windage_loss : float
}.

Definition init : Unknowns := {|
  d_base := 0.48;
  l_base := 0.4;
  mass := 0.0;
  max_torque := 0.0;
  torque := 1000.0;
  w_base := 3000.0;
  D2L := 1.0;
  power_mech := 0.0;
  w_operating := 0.0;
  power_iron_loss := 0.0;
  winding_resistance := 0.0;
  power_windage_loss := 0.0
|}.

Definition example_params : Params := {|
  max_current := 450.0;
  speed := 1900.0;
  L_D_ratio := 0.83;
  core_radius_ratio := 0.7;
  max_rpm := 2500.0;
  pole_pairs := 6.0;
  design_power := 110000;
  n_phases := 3.0;
  kappa := 0.5
|}.

Definition with_design_power (v : float) (p : Params) : Params :=
  mkParams (max_current p) (speed p) (L_D_ratio p) (core_radius_ratio p)
    (max_rpm p) (pole_pairs p) v (n_phases p) (kappa p).

Definition calculate_windage_loss (w_operating d_base l_base : float)
    : float := 0.

Definition calculate_copper_loss (libm_pow : float -> float -> float)
    (d_base max_current n_phases : float) : float :=
  let As := 688.7 * max_current in
  let n_coil_turns := As * np_pi * d_base / max_current / n_phases / 2.0 in
  let resistance_per_km_per_turn :=
    48.8387296964863 * np_power libm_pow max_current (-1.00112597971171) in
  let winding_len := d_base * 3.14159 in
  let resistance_per_turn :=
    resistance_per_km_per_turn * winding_len / 1000.0 in
  resistance_per_turn * n_coil_turns * n_phases.

Definition calculate_iron_loss (libm_pow : float -> float -> float)
    (d_base speed l_base core_radius_ratio pole_pairs : float) : float :=
  let stator_core_density := 7650.0 in
  let Kh := 0.0275 in
  let Kc := 1.83e-5 in
  let Ke := 2.77e-5 in
  let Bp := 1.22 in
  let freq := speed * pole_pairs / 60.0 in
  let volume_iron :=
    np_pi * l_base * np_power libm_pow (d_base / 2.0) 2.0
    * (1.0 - np_power libm_pow core_radius_ratio 2.0) in
  let iron_core_mass := stator_core_density * volume_iron in
  (Kh * np_power libm_pow Bp 2.0 * freq
   + Kc * np_power libm_pow (Bp * freq) 2.0
   + Ke * np_power libm_pow (Bp * freq) 1.5) * iron_core_mass.

(** [solve_nonlinear] with its error path.  The primed names are the values
    an assignment stores; a right-hand side that reads an output before the
    assignment to it reads the field of [unknowns]. *)
Definition evaluate (libm_pow : float -> float -> float) (params : Params)
    (unknowns : Unknowns) : outcome Unknowns :=
  let w_max := max_rpm params * 2.0 * np_pi / 60.0 in
  let w_base' := kappa params * w_max in
  let max_torque' := design_power params / w_base' in
  torque' <- py_div (design_power params) w_max ;;
  let power_mech' := w_operating unknowns * torque' in
  let w_operating' := speed params * 2 * np_pi / 60.0 in
  let power_iron_loss' :=
    calculate_iron_loss libm_pow (d_base unknowns) (speed params)
      (l_base unknowns) (core_radius_ratio params) (pole_pairs params) in
  let winding_resistance' :=
    calculate_copper_loss libm_pow (d_base unknowns) (max_current params)
      (n_phases params) in
  let power_windage_loss' :=
    calculate_windage_loss w_operating' (d_base unknowns)
      (l_base unknowns) in
  let D2L' := 293722.0 * np_power libm_pow max_torque' 0.7592 in
  let d_base' :=
    np_power libm_pow (D2L' / L_D_ratio params) (1.0 / 3.0) / 1000.0 in
  let l_base' := d_base' * L_D_ratio params in
  let mass' := 0.0000070646 * np_power libm_pow D2L' 0.9386912061 in
  Returns
    (mkUnknowns d_base' l_base' mass' max_torque' torque' w_base' D2L'
       power_mech' w_operating' power_iron_loss' winding_resistance'
       power_windage_loss').

End MotorSize64.

(** * Properties *)

(** Decimal literals are quotients of integers; [field] wants them so. *)
Ltac decimals := unfold Q2R; cbn [QArith_base.Qnum QArith_base.Qden].

(** ** [np_power] *)

Lemma np_power_pos (x y : R) : 0 < x -> np_power x y = Rpower x y.
Proof.
  intros Hx. unfold np_power.
  destruct (Rlt_dec 0 x) as [_ | Hn]; [reflexivity | contradiction].
Qed.

Lemma np_power_gt0 (x y : R) : 0 < x -> 0 < np_power x y.
Proof.
  intros Hx. rewrite np_power_pos by assumption.
  unfold Rpower. apply exp_pos.
Qed.

Lemma np_power_lt (a b c : R) :
  0 < c -> 0 < a -> a < b -> np_power a c < np_power b c.
Proof.
  intros Hc Ha Hab.
  rewrite !np_power_pos by lra.
  apply Rlt_Rpower_l; lra.
Qed.

Lemma Int_part_2 : Int_part 2.0 = 2%Z.
Proof. symmetry. apply Int_part_spec. lra. Qed.

Lemma Int_part_1p5 : Int_part 1.5 = 1%Z.
Proof. symmetry. apply Int_part_spec. lra. Qed.

(** With the exponent [2.0], [np.power] is the square, whatever the sign of
    the base. *)
Lemma np_power_2 (x : R) : np_power x 2.0 = x * x.
Proof.
  unfold np_power.
  destruct (Rlt_dec 0 x) as [Hx | Hx].
  - replace 2.0 with (INR 2) by (simpl; lra).
    rewrite Rpower_pow by assumption. simpl. ring.
  - rewrite Int_part_2.
    destruct (Req_dec_T 2.0 2) as [_ | Hn]; [| exfalso; apply Hn; lra].
    simpl. ring.
Qed.

Lemma np_power_1p5_nonneg (x : R) : 0 <= np_power x 1.5.
Proof.
  unfold np_power.
  destruct (Rlt_dec 0 x) as [Hx | Hx].
  - left. unfold Rpower. apply exp_pos.
  - rewrite Int_part_1p5.
    destruct (Req_dec_T 1.5 1) as [He | _]; [lra | lra].
Qed.

Lemma np_power_one (y : R) : np_power 1 y = 1.
Proof.
  rewrite np_power_pos by lra.
  unfold Rpower. rewrite ln_1, Rmult_0_r. apply exp_0.
Qed.

(** Symbolic execution of the assignments of [MotorSize.solve_nonlinear]:
    only the setters and the projections are unfolded, the arithmetic is
    left as it stands. *)
Ltac sizing :=
  cbv beta iota zeta delta
    [MotorSize.solve_nonlinear
     MotorSize.set_d_base MotorSize.set_l_base MotorSize.set_mass
     MotorSize.set_max_torque MotorSize.set_torque MotorSize.set_w_base
     MotorSize.set_D2L MotorSize.set_power_mech MotorSize.set_w_operating
     MotorSize.set_power_iron_loss MotorSize.set_winding_resistance
     MotorSize.set_power_windage_loss
     MotorSize.d_base MotorSize.l_base MotorSize.mass MotorSize.max_torque
     MotorSize.torque MotorSize.w_base MotorSize.D2L MotorSize.power_mech
     MotorSize.w_operating MotorSize.power_iron_loss
     MotorSize.winding_resistance MotorSize.power_windage_loss].

(** ** [MotorSize.solve_nonlinear]: which values each output is computed from *)

Section MotorSizeEquations.

Import MotorSize.

Variables (p : Params) (u : Unknowns).

Let u' := solve_nonlinear p u.

Lemma w_base_eq : w_base u' = kappa p * (max_rpm p * 2.0 * np_pi / 60.0).
Proof. subst u'. sizing. reflexivity. Qed.

Lemma max_torque_eq :
  max_torque u' = design_power p / (kappa p * (max_rpm p * 2.0 * np_pi / 60.0)).
Proof. subst u'. sizing. reflexivity. Qed.

Lemma torque_eq : torque u' = design_power p / (max_rpm p * 2.0 * np_pi / 60.0).
Proof. subst u'. sizing. reflexivity. Qed.

Lemma w_operating_eq : w_operating u' = speed p * 2 * np_pi / 60.0.
Proof. subst u'. sizing. reflexivity. Qed.

(** [power_mech] is assigned one line before [w_operating]: it is the
    product of the new torque with the [w_operating] that the vector held
    on entry. *)
Lemma power_mech_eq : power_mech u' = w_operating u * torque u'.
Proof. subst u'. sizing. reflexivity. Qed.

(** The three losses are assigned before the size: they read the [d_base]
    and [l_base] that the vector held on entry. *)
Lemma power_iron_loss_eq :
  power_iron_loss u'
  = calculate_iron_loss (d_base u) (speed p) (l_base u)
      (core_radius_ratio p) (pole_pairs p).
Proof. subst u'. sizing. reflexivity. Qed.

Lemma winding_resistance_eq :
  winding_resistance u'
  = calculate_copper_loss (d_base u) (max_current p) (n_phases p).
Proof. subst u'. sizing. reflexivity. Qed.

Lemma power_windage_loss_eq : power_windage_loss u' = 0.
Proof. subst u'. sizing. reflexivity. Qed.

Lemma D2L_eq : D2L u' = 293722.0 * np_power (max_torque u') 0.7592.
Proof. subst u'. sizing. reflexivity. Qed.

Lemma d_base_eq :
  d_base u' = np_power (D2L u' / L_D_ratio p) (1.0 / 3.0) / 1000.0.
Proof. subst u'. sizing. reflexivity. Qed.

Lemma l_base_eq : l_base u' = d_base u' * L_D_ratio p.
Proof. subst u'. sizing. reflexivity. Qed.

Lemma mass_eq : mass u' = 0.0000070646 * np_power (D2L u') 0.9386912061.
Proof. subst u'. sizing. reflexivity. Qed.

End MotorSizeEquations.

(** From the second evaluation on the vector no longer changes: the stale
    reads of the first evaluation are then reads of values that depend on
    the parameters only. *)
Lemma solve_nonlinear_settles (p : MotorSize.Params) (u : MotorSize.Unknowns) :
  MotorSize.solve_nonlinear p
    (MotorSize.solve_nonlinear p (MotorSize.solve_nonlinear p u))
  = MotorSize.solve_nonlinear p (MotorSize.solve_nonlinear p u).
Proof. sizing. reflexivity. Qed.

(** After two evaluations the vector is a function of the parameters
    alone: it no longer depends on the vector the first one started
    from. *)
Lemma solve_nonlinear_twice_independent
    (p : MotorSize.Params) (u u' : MotorSize.Unknowns) :
  MotorSize.solve_nonlinear p (MotorSize.solve_nonlinear p u)
  = MotorSize.solve_nonlinear p (MotorSize.solve_nonlinear p u').
Proof. sizing. reflexivity. Qed.

Lemma run_settles (n : nat) (p : MotorSize.Params) (u : MotorSize.Unknowns) :
  MotorSize.run (2 + n) p u = MotorSize.run 2 p u.
Proof.
  induction n as [| n IH]; [reflexivity |].
  rewrite <- IH. clear IH. revert u.
  change (2 + S n)%nat with (S (S (S n))).
  change (2 + n)%nat with (S (S n)).
  induction n as [| n IH]; intros u.
  - simpl. now rewrite solve_nonlinear_settles.
  - simpl in *. apply (IH (MotorSize.solve_nonlinear p u)).
Qed.

(** Values of the run at the end of the source file. *)
Lemma example_torque_times_w_operating (u u' : MotorSize.Unknowns) :
  MotorSize.w_operating (MotorSize.solve_nonlinear MotorSize.example_params u)
  * MotorSize.torque (MotorSize.solve_nonlinear MotorSize.example_params u')
  = 83600.
Proof.
  rewrite w_operating_eq, torque_eq. unfold np_pi.
  cbn [MotorSize.example_params MotorSize.speed MotorSize.design_power
       MotorSize.max_rpm].
  decimals. pose proof PI_RGT_0. field. lra.
Qed.

(** ** The claims on [MotorSize] *)

(** C1 (the code departs from the claim).  On the first evaluation of the
    component with the parameters of the example run, [power_mech] is [0]:
    it is the product of the torque with the [w_operating] stored before the
    evaluation (the initial [0.0]), not with the [w_operating = speed*2*pi/60]
    that the same evaluation stores one line later, and the product the
    claim asks for is [83600]. *)
Theorem power_mech_uses_previous_w_operating :
  let u := MotorSize.solve_nonlinear MotorSize.example_params MotorSize.init in
  MotorSize.power_mech u = MotorSize.w_operating MotorSize.init * MotorSize.torque u
  /\ MotorSize.power_mech u = 0
  /\ MotorSize.w_operating u = 1900.0 * 2 * PI / 60.0
  /\ MotorSize.w_operating u * MotorSize.torque u = 83600
  /\ MotorSize.power_mech u <> MotorSize.w_operating u * MotorSize.torque u.
Proof.
  cbv zeta.
  assert (H0 : MotorSize.power_mech
                 (MotorSize.solve_nonlinear MotorSize.example_params
                    MotorSize.init) = 0).
  { rewrite power_mech_eq. cbn [MotorSize.w_operating MotorSize.init]. lra. }
  pose proof (example_torque_times_w_operating MotorSize.init MotorSize.init)
    as H1.
  split; [apply power_mech_eq |]. split; [exact H0 |].
  split; [apply w_operating_eq |]. split; [exact H1 |].
  rewrite H0, H1. lra.
Qed.

(** C4 (the code departs from the claim).  Two evaluations with the same
    parameters, the first on the freshly initialised vector and the second
    on the vector the first one left, give different outputs: [power_mech]
    is [0] and then [83600].  The outputs depend on the values stored
    before the evaluation. *)
Theorem sizing_depends_on_stored_outputs :
  let p := MotorSize.example_params in
  let u1 := MotorSize.solve_nonlinear p MotorSize.init in
  let u2 := MotorSize.solve_nonlinear p u1 in
  MotorSize.power_mech u1 = 0
  /\ MotorSize.power_mech u2 = 83600
  /\ MotorSize.power_iron_loss u1
     = MotorSize.calculate_iron_loss 0.48 1900.0 0.4 0.7 6.0
  /\ MotorSize.power_iron_loss u2
     = MotorSize.calculate_iron_loss (MotorSize.d_base u1) 1900.0
         (MotorSize.l_base u1) 0.7 6.0
  /\ u1 <> u2.
Proof.
  cbv zeta.
  set (p := MotorSize.example_params).
  set (u1 := MotorSize.solve_nonlinear p MotorSize.init).
  assert (H1 : MotorSize.power_mech u1 = 0).
  { unfold u1. rewrite power_mech_eq.
    cbn [MotorSize.w_operating MotorSize.init]. lra. }
  assert (H2 : MotorSize.power_mech (MotorSize.solve_nonlinear p u1) = 83600).
  { rewrite power_mech_eq. apply example_torque_times_w_operating. }
  split; [exact H1 |]. split; [exact H2 |].
  split; [unfold u1; apply power_iron_loss_eq |].
  split; [apply power_iron_loss_eq |].
  intros E. rewrite <- E in H2. lra.
Qed.

(** C6.  After every evaluation the size outputs satisfy the regression
    formulas with the literal constants of the source, each computed from
    the values the same evaluation stored: [max_torque] from the
    parameters, [D2L] from that [max_torque], [d_base] from that [D2L],
    [l_base] from that [d_base], [mass] from that [D2L]. *)
Theorem sizing_formulas (p : MotorSize.Params) (u : MotorSize.Unknowns) :
  let u' := MotorSize.solve_nonlinear p u in
  MotorSize.max_torque u'
  = MotorSize.design_power p
    / (MotorSize.kappa p * (MotorSize.max_rpm p * 2.0 * PI / 60.0))
  /\ MotorSize.D2L u' = 293722.0 * np_power (MotorSize.max_torque u') 0.7592
  /\ MotorSize.d_base u'
     = np_power (MotorSize.D2L u' / MotorSize.L_D_ratio p) (1.0 / 3.0) / 1000.0
  /\ MotorSize.l_base u' = MotorSize.d_base u' * MotorSize.L_D_ratio p
  /\ MotorSize.mass u'
     = 0.0000070646 * np_power (MotorSize.D2L u') 0.9386912061.
Proof.
  cbv zeta.
  split; [apply max_torque_eq |].
  split; [apply D2L_eq |].
  split; [apply d_base_eq |].
  split; [apply l_base_eq | apply mass_eq].
Qed.

(** [w_max] and [w_base] are positive for a positive [max_rpm] and
    [kappa]. *)
Lemma w_base_pos (p : MotorSize.Params) :
  0 < MotorSize.max_rpm p -> 0 < MotorSize.kappa p ->
  0 < MotorSize.kappa p * (MotorSize.max_rpm p * 2.0 * np_pi / 60.0).
Proof.
  intros Hr Hk. unfold np_pi. pose proof PI_RGT_0 as Hpi.
  apply Rmult_lt_0_compat; [assumption |].
  apply Rdiv_lt_0_compat; [| lra].
  apply Rmult_lt_0_compat; [| assumption]. lra.
Qed.

Lemma max_torque_pos (p : MotorSize.Params) (u : MotorSize.Unknowns) :
  0 < MotorSize.max_rpm p -> 0 < MotorSize.kappa p ->
  0 < MotorSize.design_power p ->
  0 < MotorSize.max_torque (MotorSize.solve_nonlinear p u).
Proof.
  intros Hr Hk Hp. rewrite max_torque_eq.
  apply Rdiv_lt_0_compat; [assumption | now apply w_base_pos].
Qed.

Lemma D2L_pos (p : MotorSize.Params) (u : MotorSize.Unknowns) :
  0 < MotorSize.max_rpm p -> 0 < MotorSize.kappa p ->
  0 < MotorSize.design_power p ->
  0 < MotorSize.D2L (MotorSize.solve_nonlinear p u).
Proof.
  intros Hr Hk Hp. rewrite D2L_eq.
  apply Rmult_lt_0_compat; [lra |].
  apply np_power_gt0. now apply max_torque_pos.
Qed.

(** C9, as stated, fails on the numbers of the program.  On binary64, the
    parameters of the example run with [design_power = 110000.00000000007]
    and with the strictly larger [110000.00000000009] give the same
    [max_torque], [840.33809952520801], and hence the same [mass], whatever
    [pow] the C library provides. *)
Lemma design_power_strictness_counterexample :
  let p1 :=
    MotorSize64.with_design_power 110000.00000000007%float
      MotorSize64.example_params in
  let p2 :=
    MotorSize64.with_design_power 110000.00000000009%float
      MotorSize64.example_params in
  (MotorSize64.design_power p1 <? MotorSize64.design_power p2)%float = true
  /\ forall libm_pow,
       match MotorSize64.evaluate libm_pow p1 MotorSize64.init,
             MotorSize64.evaluate libm_pow p2 MotorSize64.init with
       | Returns s1, Returns s2 =>
           MotorSize64.max_torque s1 = 840.33809952520801%float
           /\ MotorSize64.max_torque s2 = 840.33809952520801%float
           /\ MotorSize64.mass s1 = MotorSize64.mass s2
       | _, _ => False
       end.
Proof.
  cbv zeta. split; [vm_compute; reflexivity |].
  intros libm_pow. vm_compute. repeat split.
Qed.

(** C9, amended.  In exact real arithmetic, with every other parameter
    fixed, and [max_rpm], [kappa] and the smaller [design_power] positive,
    a strictly larger [design_power] gives a strictly larger [max_torque]
    and a strictly larger [mass], whatever the vectors the two evaluations
    start from.  (On binary64 the two can round to the same value.) *)
Theorem design_power_monotone
    (p : MotorSize.Params) (design_power' : R) (u1 u2 : MotorSize.Unknowns) :
  0 < MotorSize.max_rpm p ->
  0 < MotorSize.kappa p ->
  0 < MotorSize.design_power p ->
  MotorSize.design_power p < design_power' ->
  let s1 := MotorSize.solve_nonlinear p u1 in
  let s2 :=
    MotorSize.solve_nonlinear (MotorSize.with_design_power design_power' p) u2 in
  MotorSize.max_torque s1 < MotorSize.max_torque s2
  /\ MotorSize.mass s1 < MotorSize.mass s2.
Proof.
  intros Hr Hk Hp Hlt s1 s2.
  set (p' := MotorSize.with_design_power design_power' p) in *.
  assert (HT : MotorSize.max_torque s1 < MotorSize.max_torque s2).
  { unfold s1, s2. rewrite !max_torque_eq.
    cbn [p' MotorSize.with_design_power MotorSize.design_power
         MotorSize.kappa MotorSize.max_rpm].
    pose proof (w_base_pos p Hr Hk) as Hw.
    unfold Rdiv. apply Rmult_lt_compat_r; [| assumption].
    now apply Rinv_0_lt_compat. }
  split; [exact HT |].
  assert (HT1 : 0 < MotorSize.max_torque s1)
    by (unfold s1; now apply max_torque_pos).
  assert (HD1 : 0 < MotorSize.D2L s1) by (unfold s1; now apply D2L_pos).
  assert (HD : MotorSize.D2L s1 < MotorSize.D2L s2).
  { unfold s1, s2. rewrite !D2L_eq.
    apply Rmult_lt_compat_l; [lra |].
    apply np_power_lt; [lra | exact HT1 | exact HT]. }
  unfold s1, s2. rewrite !mass_eq.
  apply Rmult_lt_compat_l; [lra |].
  apply np_power_lt; [lra | exact HD1 | exact HD].
Qed.

Lemma design_power_monotone_witness :
  let p := MotorSize.example_params in
  MotorSize.max_torque (MotorSize.solve_nonlinear p MotorSize.init)
  < MotorSize.max_torque
      (MotorSize.solve_nonlinear (MotorSize.with_design_power 120000 p)
         MotorSize.init)
  /\ MotorSize.mass (MotorSize.solve_nonlinear p MotorSize.init)
     < MotorSize.mass
         (MotorSize.solve_nonlinear (MotorSize.with_design_power 120000 p)
            MotorSize.init).
Proof.
  cbv zeta.
  apply (design_power_monotone MotorSize.example_params 120000
           MotorSize.init MotorSize.init);
    cbn [MotorSize.example_params MotorSize.max_rpm MotorSize.kappa
         MotorSize.design_power]; lra.
Defined.

(** C10, as stated, fails on the numbers of the program.  On binary64, for
    [d_base = 0.48] and [max_current = 1.0], [calculate_copper_loss] returns
    [38.242502167633262] for three phases and [38.242502167633255] for
    seven, whatever [pow] the C library provides. *)
Lemma copper_loss_n_phases_counterexample :
  (0 <? 0.48)%float = true
  /\ (0 <? 1.0)%float = true
  /\ (0 <? 3.0)%float = true
  /\ (0 <? 7.0)%float = true
  /\ forall libm_pow,
       MotorSize64.calculate_copper_loss libm_pow 0.48%float 1.0%float
         3.0%float = 38.242502167633262%float
       /\ MotorSize64.calculate_copper_loss libm_pow 0.48%float 1.0%float
            7.0%float = 38.242502167633255%float
       /\ MotorSize64.calculate_copper_loss libm_pow 0.48%float 1.0%float
            3.0%float
          <> MotorSize64.calculate_copper_loss libm_pow 0.48%float 1.0%float
               7.0%float.
Proof.
  do 4 (split; [vm_compute; reflexivity |]).
  intros libm_pow.
  assert (E3 : MotorSize64.calculate_copper_loss libm_pow 0.48%float
                 1.0%float 3.0%float = 38.242502167633262%float)
    by (vm_compute; reflexivity).
  assert (E7 : MotorSize64.calculate_copper_loss libm_pow 0.48%float
                 1.0%float 7.0%float = 38.242502167633255%float)
    by (vm_compute; reflexivity).
  split; [exact E3 |]. split; [exact E7 |].
  rewrite E3, E7. intros E.
  apply (f_equal (fun x => PrimFloat.eqb x 38.242502167633262%float)) in E.
  vm_compute in E. discriminate.
Qed.

(** C10, amended.  In exact real arithmetic the winding resistance does not
    depend on the number of phases: for a positive [d_base] and
    [max_current] and two positive phase counts, the value of
    [calculate_copper_loss] is the same; the division of the coil turns by
    [n_phases] is undone by the last product.  (On binary64 the two values
    agree up to rounding only.) *)
Theorem copper_loss_independent_of_n_phases (d_base max_current n1 n2 : R) :
  0 < d_base -> 0 < max_current -> 0 < n1 -> 0 < n2 ->
  MotorSize.calculate_copper_loss d_base max_current n1
  = MotorSize.calculate_copper_loss d_base max_current n2.
Proof.
  intros Hd Hc H1 H2.
  unfold MotorSize.calculate_copper_loss. cbv zeta.
  generalize (np_power max_current (-1.00112597971171)). intros r.
  unfold np_pi. decimals. field. lra.
Qed.

Lemma copper_loss_independent_of_n_phases_witness :
  MotorSize.calculate_copper_loss 0.48 42.0 3.0
  = MotorSize.calculate_copper_loss 0.48 42.0 6.0.
Proof.
  apply (copper_loss_independent_of_n_phases 0.48 42.0 3.0 6.0); lra.
Defined.

(** ** The claims on [Motor] *)

Ltac electrical :=
  cbv beta iota zeta delta
    [Motor.solve_nonlinear
     Motor.set_current Motor.set_phase_current Motor.set_voltage
     Motor.set_phase_voltage Motor.set_frequency Motor.set_power_input
     Motor.current Motor.phase_current Motor.voltage Motor.phase_voltage
     Motor.frequency Motor.power_input].

Section MotorEquations.

Import Motor.

Variables (params : Params) (unknowns : Unknowns).

Lemma current_eq :
  current (solve_nonlinear params unknowns)
  = I0 params + torque params / k_t params.
Proof. electrical. reflexivity. Qed.

Lemma power_input_eq :
  power_input (solve_nonlinear params unknowns)
  = power_mech params + power_windage_loss params + power_iron_loss params
    + np_power (I0 params + torque params / k_t params) 2.0
      * winding_resistance params.
Proof. electrical. reflexivity. Qed.

Lemma phase_current_eq :
  phase_current (solve_nonlinear params unknowns)
  = (I0 params + torque params / k_t params) / n_phases params.
Proof. electrical. reflexivity. Qed.

Lemma voltage_eq :
  voltage (solve_nonlinear params unknowns)
  = (I0 params + torque params / k_t params) * winding_resistance params
    + w_operating params / (k_v params * np_pi / 30.0).
Proof. electrical. reflexivity. Qed.

Lemma phase_voltage_eq :
  phase_voltage (solve_nonlinear params unknowns)
  = ((I0 params + torque params / k_t params) * winding_resistance params
     + w_operating params / (k_v params * np_pi / 30.0))
    * np_sqrt (3.0 / 2.0).
Proof. electrical. reflexivity. Qed.

Lemma frequency_eq :
  frequency (solve_nonlinear params unknowns)
  = w_operating params / np_pi * pole_pairs params / 60.0.
Proof. electrical. reflexivity. Qed.

End MotorEquations.

(** C5.  For every input, [Motor.solve_nonlinear] stores the values of the
    electrical model: with [k_v = (max_current - I0)/max_torque * 30/pi] and
    [k_t = (30/pi)/k_v], the current, the voltage, the phase quantities, the
    frequency and the input power are the stated expressions of the
    parameters. *)
Theorem electrical_formulas (params : Motor.Params) (unknowns : Motor.Unknowns) :
  let s := Motor.solve_nonlinear params unknowns in
  let k_v :=
    (Motor.max_current params - Motor.I0 params) / Motor.max_torque params
    * 30 / PI in
  let k_t := (30 / PI) / k_v in
  Motor.k_v params = k_v
  /\ Motor.k_t params = k_t
  /\ Motor.current s = Motor.I0 params + Motor.torque params / k_t
  /\ Motor.voltage s
     = Motor.current s * Motor.winding_resistance params
       + Motor.w_operating params / (k_v * PI / 30)
  /\ Motor.phase_current s = Motor.current s / Motor.n_phases params
  /\ Motor.phase_voltage s = Motor.voltage s * sqrt (3 / 2)
  /\ Motor.frequency s
     = Motor.w_operating params / PI * Motor.pole_pairs params / 60
  /\ Motor.power_input s
     = Motor.power_mech params + Motor.power_windage_loss params
       + Motor.power_iron_loss params
       + Motor.current s * Motor.current s * Motor.winding_resistance params.
Proof.
  intros s k_v k_t.
  assert (E30 : 30.0 = 30) by lra.
  assert (E60 : 60.0 = 60) by lra.
  assert (E32 : 3.0 / 2.0 = 3 / 2) by lra.
  assert (Hv : Motor.k_v params = k_v).
  { unfold Motor.k_v, k_v, np_pi. now rewrite E30. }
  assert (Ht : Motor.k_t params = k_t).
  { unfold Motor.k_t, k_t, np_pi. rewrite Hv, E30.
    replace 1.0 with 1 by lra. unfold Rdiv. ring. }
  assert (Hc : Motor.current s = Motor.I0 params + Motor.torque params / k_t).
  { unfold s. rewrite current_eq. now rewrite Ht. }
  assert (Hu : Motor.voltage s
               = Motor.current s * Motor.winding_resistance params
                 + Motor.w_operating params / (k_v * PI / 30)).
  { rewrite Hc. unfold s. rewrite voltage_eq. unfold np_pi.
    now rewrite Ht, Hv, E30. }
  split; [exact Hv |]. split; [exact Ht |]. split; [exact Hc |].
  split; [exact Hu |].
  split.
  { rewrite Hc. unfold s. rewrite phase_current_eq. now rewrite Ht. }
  split.
  { rewrite Hu, Hc. unfold s. rewrite phase_voltage_eq.
    unfold np_sqrt, np_pi. now rewrite Ht, Hv, E30, E32. }
  split.
  { unfold s. rewrite frequency_eq. unfold np_pi. now rewrite E60. }
  rewrite Hc. unfold s. rewrite power_input_eq, np_power_2. now rewrite Ht.
Qed.

(** The parameters of the failure scenario: [max_current = 1.0], the other
    design parameters of the example run, the outputs of a first sizing
    pass and the initial guess [I0 = 40.0]. *)
Lemma max_torque_example_pos (mc : R) (u : MotorSize.Unknowns) :
  0 < MotorSize.max_torque
        (MotorSize.solve_nonlinear
           (MotorSize.with_max_current mc MotorSize.example_params) u).
Proof.
  apply max_torque_pos;
    cbn [MotorSize.with_max_current MotorSize.example_params
         MotorSize.max_rpm MotorSize.kappa MotorSize.design_power]; lra.
Qed.

(** The call of [Motor] raises exactly when one of its four divisors is
    zero, and otherwise returns the state of [solve_nonlinear]. *)
Lemma motor_evaluate_eq (params : Motor.Params) (unknowns : Motor.Unknowns) :
  Motor.evaluate params unknowns
  = if Req_dec_T (Motor.max_torque params) 0 then Raises ZeroDivisionError
    else if Req_dec_T (Motor.k_v params) 0 then Raises ZeroDivisionError
    else if Req_dec_T (Motor.k_t params) 0 then Raises ZeroDivisionError
    else if Req_dec_T (Motor.k_v params * np_pi / 30.0) 0
         then Raises ZeroDivisionError
    else Returns (Motor.solve_nonlinear params unknowns).
Proof.
  unfold Motor.evaluate, py_div.
  destruct (Req_dec_T (Motor.max_torque params) 0) as [H1 | H1];
    [reflexivity |].
  cbn [bind]. fold (Motor.k_v params).
  destruct (Req_dec_T (Motor.k_v params) 0) as [H2 | H2]; [reflexivity |].
  cbn [bind]. fold (Motor.k_t params).
  destruct (Req_dec_T (Motor.k_t params) 0) as [H3 | H3]; [reflexivity |].
  cbn [bind].
  destruct (Req_dec_T (Motor.k_v params * np_pi / 30.0) 0) as [H4 | H4];
    [reflexivity |].
  cbn [bind]. electrical. reflexivity.
Qed.

Lemma motor_evaluate_never_domain_error
    (params : Motor.Params) (unknowns : Motor.Unknowns) :
  Motor.evaluate params unknowns <> Raises DomainError.
Proof.
  rewrite motor_evaluate_eq.
  repeat (destruct (Req_dec_T _ 0); [discriminate |]). discriminate.
Qed.

(** The divisors of [Motor] on the failure scenario: none is zero. *)
Lemma failure_scenario_divisors (u : MotorSize.Unknowns) :
  let dp := MotorSize.with_max_current 1.0 MotorSize.example_params in
  let params :=
    MotorGroup.motor_params dp (MotorSize.solve_nonlinear dp u)
      MotorBalance.I0_init in
  Motor.max_torque params <> 0
  /\ Motor.k_v params <> 0
  /\ Motor.k_t params <> 0
  /\ Motor.k_v params * np_pi / 30.0 <> 0.
Proof.
  intros dp params. pose proof PI_RGT_0 as Hpi.
  assert (HT : 0 < Motor.max_torque params).
  { unfold params. cbn [MotorGroup.motor_params Motor.max_torque].
    apply max_torque_example_pos. }
  assert (Hq : 0 < / Motor.max_torque params) by now apply Rinv_0_lt_compat.
  assert (Hp : 0 < / PI) by now apply Rinv_0_lt_compat.
  assert (Ev : Motor.k_v params
               = - (39 * 30 * (/ Motor.max_torque params * / PI))).
  { unfold Motor.k_v, np_pi, params, MotorBalance.I0_init.
    cbn [MotorGroup.motor_params Motor.max_current Motor.I0 dp
         MotorSize.with_max_current MotorSize.max_current].
    unfold Rdiv. lra. }
  assert (Hv : Motor.k_v params < 0).
  { rewrite Ev.
    assert (0 < / Motor.max_torque params * / PI)
      by now apply Rmult_lt_0_compat.
    lra. }
  assert (Hiv : / Motor.k_v params < 0) by now apply Rinv_lt_0_compat.
  split; [lra |]. split; [lra |]. split.
  - unfold Motor.k_t, np_pi, Rdiv.
    assert (0 < 30.0 * / PI * 1.0) by nra.
    set (c := 30.0 * / PI * 1.0) in *. nra.
  - unfold np_pi, Rdiv. nra.
Qed.

(** C2, as stated, fails.  With [max_current = 1.0] and the initial guess
    [I0 = 40.0], so that [max_current <= I0], the evaluation of [Motor]
    returns: it raises no [DomainError]. *)
Lemma max_current_guard_counterexample :
  let dp := MotorSize.with_max_current 1.0 MotorSize.example_params in
  let sz := MotorSize.solve_nonlinear dp MotorSize.init in
  let params := MotorGroup.motor_params dp sz MotorBalance.I0_init in
  Motor.max_current params = 1.0
  /\ Motor.I0 params = 40.0
  /\ Motor.max_current params <= Motor.I0 params
  /\ Motor.evaluate params Motor.init
     = Returns (Motor.solve_nonlinear params Motor.init)
  /\ Motor.evaluate params Motor.init <> Raises DomainError.
Proof.
  cbv zeta.
  split; [reflexivity |]. split; [reflexivity |].
  split.
  - cbn [MotorGroup.motor_params Motor.max_current Motor.I0
         MotorSize.with_max_current MotorSize.max_current].
    unfold MotorBalance.I0_init. lra.
  - assert (E : Motor.evaluate
                  (MotorGroup.motor_params
                     (MotorSize.with_max_current 1.0 MotorSize.example_params)
                     (MotorSize.solve_nonlinear
                        (MotorSize.with_max_current 1.0
                           MotorSize.example_params) MotorSize.init)
                     MotorBalance.I0_init) Motor.init
                = Returns
                    (Motor.solve_nonlinear
                       (MotorGroup.motor_params
                          (MotorSize.with_max_current 1.0
                             MotorSize.example_params)
                          (MotorSize.solve_nonlinear
                             (MotorSize.with_max_current 1.0
                                MotorSize.example_params) MotorSize.init)
                          MotorBalance.I0_init) Motor.init)).
    { destruct (failure_scenario_divisors MotorSize.init)
        as (H1 & H2 & H3 & H4).
      rewrite motor_evaluate_eq.
      destruct (Req_dec_T _ 0) as [E | _]; [contradiction |].
      destruct (Req_dec_T _ 0) as [E | _]; [contradiction |].
      destruct (Req_dec_T _ 0) as [E | _]; [contradiction |].
      destruct (Req_dec_T _ 0) as [E | _]; [contradiction |].
      reflexivity. }
    split; [exact E |]. rewrite E. discriminate.
Qed.

(** C2, amended.  For every input with [max_current <= I0] the evaluation
    of [Motor] raises no [DomainError]: there is no guard.  When
    [max_current = I0] the voltage constant is zero and the quotient by it
    (or, before it, the quotient by a zero [max_torque]) raises
    [ZeroDivisionError]; when none of the divisors [max_torque], [k_v],
    [k_t] and [k_v * pi / 30] is zero the evaluation returns the state of
    [solve_nonlinear]. *)
Theorem max_current_not_guarded
    (params : Motor.Params) (unknowns : Motor.Unknowns) :
  Motor.max_current params <= Motor.I0 params ->
  Motor.evaluate params unknowns <> Raises DomainError
  /\ (Motor.max_current params = Motor.I0 params ->
      Motor.evaluate params unknowns = Raises ZeroDivisionError)
  /\ (Motor.max_torque params <> 0 ->
      Motor.k_v params <> 0 ->
      Motor.k_t params <> 0 ->
      Motor.k_v params * np_pi / 30.0 <> 0 ->
      Motor.evaluate params unknowns
      = Returns (Motor.solve_nonlinear params unknowns)).
Proof.
  intros _.
  split; [apply motor_evaluate_never_domain_error |]. split.
  - intros E. rewrite motor_evaluate_eq.
    destruct (Req_dec_T (Motor.max_torque params) 0) as [_ | _];
      [reflexivity |].
    destruct (Req_dec_T (Motor.k_v params) 0) as [_ | Hn]; [reflexivity |].
    exfalso. apply Hn. unfold Motor.k_v. rewrite E.
    unfold Rdiv. ring.
  - intros H1 H2 H3 H4. rewrite motor_evaluate_eq.
    destruct (Req_dec_T _ 0) as [E | _]; [contradiction |].
    destruct (Req_dec_T _ 0) as [E | _]; [contradiction |].
    destruct (Req_dec_T _ 0) as [E | _]; [contradiction |].
    destruct (Req_dec_T _ 0) as [E | _]; [contradiction |].
    reflexivity.
Qed.

Lemma max_current_not_guarded_witness :
  let dp := MotorSize.with_max_current 1.0 MotorSize.example_params in
  let sz := MotorSize.solve_nonlinear dp MotorSize.init in
  let params := MotorGroup.motor_params dp sz MotorBalance.I0_init in
  Motor.evaluate params Motor.init <> Raises DomainError
  /\ Motor.evaluate params Motor.init
     = Returns (Motor.solve_nonlinear params Motor.init).
Proof.
  cbv zeta.
  destruct (max_current_not_guarded
              (MotorGroup.motor_params
                 (MotorSize.with_max_current 1.0 MotorSize.example_params)
                 (MotorSize.solve_nonlinear
                    (MotorSize.with_max_current 1.0 MotorSize.example_params)
                    MotorSize.init)
                 MotorBalance.I0_init)
              Motor.init) as (Hd & _ & Hr).
  - cbn [MotorGroup.motor_params Motor.max_current Motor.I0
         MotorSize.with_max_current MotorSize.max_current].
    unfold MotorBalance.I0_init. lra.
  - split; [exact Hd |].
    destruct (failure_scenario_divisors MotorSize.init)
      as (H1 & H2 & H3 & H4).
    exact (Hr H1 H2 H3 H4).
Defined.

(** ** The iron loss and [core_radius_ratio] *)

(** The loss per unit of core mass is non-negative for a non-negative
    electrical frequency. *)
Lemma iron_loss_per_mass_nonneg (freq : R) :
  0 <= freq ->
  0 <= 0.0275 * np_power 1.22 2.0 * freq
       + 1.83e-5 * np_power (1.22 * freq) 2.0
       + 2.77e-5 * np_power (1.22 * freq) 1.5.
Proof.
  intros Hf. rewrite !np_power_2.
  pose proof (np_power_1p5_nonneg (1.22 * freq)) as H15.
  assert (H1 : 0 <= 0.0275 * (1.22 * 1.22) * freq).
  { apply Rmult_le_pos; [lra | assumption]. }
  assert (H2 : 0 <= 1.83e-5 * (1.22 * freq * (1.22 * freq))).
  { apply Rmult_le_pos; [lra |]. apply Rle_0_sqr. }
  assert (H3 : 0 <= 2.77e-5 * np_power (1.22 * freq) 1.5).
  { apply Rmult_le_pos; [lra | assumption]. }
  lra.
Qed.

(** The iron loss as a product: loss per mass, density, and the volume
    [pi * l_base * (d_base/2)^2 * (1 - core_radius_ratio^2)]. *)
Lemma calculate_iron_loss_eq (d_base speed l_base crr pole_pairs : R) :
  MotorSize.calculate_iron_loss d_base speed l_base crr pole_pairs
  = (0.0275 * np_power 1.22 2.0 * (speed * pole_pairs / 60.0)
     + 1.83e-5 * np_power (1.22 * (speed * pole_pairs / 60.0)) 2.0
     + 2.77e-5 * np_power (1.22 * (speed * pole_pairs / 60.0)) 1.5)
    * (7650.0
       * (PI * l_base * (d_base / 2.0 * (d_base / 2.0)) * (1.0 - crr * crr))).
Proof.
  unfold MotorSize.calculate_iron_loss. cbv zeta. unfold np_pi.
  now rewrite (np_power_2 (d_base / 2.0)), (np_power_2 crr).
Qed.

Lemma calculate_iron_loss_nonneg (d_base speed l_base crr pole_pairs : R) :
  0 <= crr <= 1 -> 0 <= l_base -> 0 <= speed * pole_pairs ->
  0 <= MotorSize.calculate_iron_loss d_base speed l_base crr pole_pairs.
Proof.
  intros Hc Hl Hf. rewrite calculate_iron_loss_eq.
  assert (Hfreq : 0 <= speed * pole_pairs / 60.0) by lra.
  pose proof (iron_loss_per_mass_nonneg _ Hfreq) as HA.
  set (A := _ + _ + _) in *.
  pose proof PI_RGT_0 as Hpi.
  assert (HB : 0 <= PI * l_base * (d_base / 2.0 * (d_base / 2.0))).
  { apply Rmult_le_pos; [apply Rmult_le_pos; lra | apply Rle_0_sqr]. }
  set (B := PI * l_base * _) in *.
  assert (HC : 0 <= 1.0 - crr * crr) by nra.
  apply Rmult_le_pos; [assumption |].
  apply Rmult_le_pos; [lra |].
  apply Rmult_le_pos; assumption.
Qed.

(** The call of [MotorSize] raises exactly when [w_max] is zero, and
    otherwise returns the state of [solve_nonlinear]. *)
Lemma motor_size_evaluate_eq (p : MotorSize.Params) (u : MotorSize.Unknowns) :
  MotorSize.evaluate p u
  = if Req_dec_T (MotorSize.max_rpm p * 2.0 * np_pi / 60.0) 0
    then Raises ZeroDivisionError
    else Returns (MotorSize.solve_nonlinear p u).
Proof.
  unfold MotorSize.evaluate, py_div. cbv zeta.
  destruct (Req_dec_T (MotorSize.max_rpm p * 2.0 * np_pi / 60.0) 0)
    as [H | H]; [reflexivity |].
  cbn [bind]. sizing. reflexivity.
Qed.

Lemma example_w_max_nonzero (p : MotorSize.Params) :
  0 < MotorSize.max_rpm p -> MotorSize.max_rpm p * 2.0 * np_pi / 60.0 <> 0.
Proof.
  intros Hr. unfold np_pi. pose proof PI_RGT_0 as Hpi.
  assert (0 < MotorSize.max_rpm p * 2.0 * PI / 60.0).
  { apply Rdiv_lt_0_compat; [nra | lra]. }
  lra.
Qed.

(** C7, as stated, fails.  With [core_radius_ratio = 1.0] the evaluation of
    [MotorSize] returns a state: it raises no [DomainError]. *)
Lemma core_radius_ratio_counterexample :
  let p := MotorSize.with_core_radius_ratio 1.0 MotorSize.example_params in
  MotorSize.core_radius_ratio p >= 1
  /\ MotorSize.evaluate p MotorSize.init
     = Returns (MotorSize.solve_nonlinear p MotorSize.init)
  /\ MotorSize.evaluate p MotorSize.init <> Raises DomainError.
Proof.
  cbv zeta.
  assert (E : MotorSize.evaluate
                (MotorSize.with_core_radius_ratio 1.0 MotorSize.example_params)
                MotorSize.init
              = Returns
                  (MotorSize.solve_nonlinear
                     (MotorSize.with_core_radius_ratio 1.0
                        MotorSize.example_params) MotorSize.init)).
  { rewrite motor_size_evaluate_eq.
    destruct (Req_dec_T _ 0) as [E | _]; [| reflexivity].
    exfalso. revert E. apply example_w_max_nonzero.
    cbn [MotorSize.with_core_radius_ratio MotorSize.example_params
         MotorSize.max_rpm]. lra. }
  split; [| split].
  - cbn [MotorSize.with_core_radius_ratio MotorSize.core_radius_ratio]. lra.
  - exact E.
  - rewrite E. discriminate.
Qed.

(** C7, amended.  For every parameter record with [core_radius_ratio >= 1]
    the evaluation of [MotorSize] raises no [DomainError]: the value is
    accepted without a range check.  The evaluation returns the state of
    [solve_nonlinear], whose iron loss is [calculate_iron_loss] on that
    [core_radius_ratio], unless [w_max = max_rpm * 2 * pi / 60] is zero: then
    the quotient [design_power / w_max] raises [ZeroDivisionError]. *)
Theorem core_radius_ratio_not_guarded
    (p : MotorSize.Params) (u : MotorSize.Unknowns) :
  1 <= MotorSize.core_radius_ratio p ->
  MotorSize.evaluate p u <> Raises DomainError
  /\ (MotorSize.max_rpm p * 2.0 * np_pi / 60.0 = 0 ->
      MotorSize.evaluate p u = Raises ZeroDivisionError)
  /\ (MotorSize.max_rpm p * 2.0 * np_pi / 60.0 <> 0 ->
      MotorSize.evaluate p u = Returns (MotorSize.solve_nonlinear p u))
  /\ MotorSize.power_iron_loss (MotorSize.solve_nonlinear p u)
     = MotorSize.calculate_iron_loss (MotorSize.d_base u) (MotorSize.speed p)
         (MotorSize.l_base u) (MotorSize.core_radius_ratio p)
         (MotorSize.pole_pairs p).
Proof.
  intros _. rewrite motor_size_evaluate_eq.
  destruct (Req_dec_T _ 0) as [E | E].
  - split; [discriminate |]. split; [reflexivity |].
    split; [contradiction | apply power_iron_loss_eq].
  - split; [discriminate |]. split; [contradiction |].
    split; [reflexivity | apply power_iron_loss_eq].
Qed.

Lemma core_radius_ratio_not_guarded_witness :
  let p := MotorSize.with_core_radius_ratio 1.0 MotorSize.example_params in
  MotorSize.evaluate p MotorSize.init <> Raises DomainError
  /\ MotorSize.evaluate p MotorSize.init
     = Returns (MotorSize.solve_nonlinear p MotorSize.init)
  /\ MotorSize.power_iron_loss (MotorSize.solve_nonlinear p MotorSize.init)
     = MotorSize.calculate_iron_loss 0.48 1900.0 0.4 1.0 6.0.
Proof.
  cbv zeta.
  destruct (core_radius_ratio_not_guarded
              (MotorSize.with_core_radius_ratio 1.0 MotorSize.example_params)
              MotorSize.init) as (Hd & _ & Hr & Hl).
  - cbn [MotorSize.with_core_radius_ratio MotorSize.core_radius_ratio]. lra.
  - split; [exact Hd |]. split; [| exact Hl].
    apply Hr. apply example_w_max_nonzero.
    cbn [MotorSize.with_core_radius_ratio MotorSize.example_params
         MotorSize.max_rpm]. lra.
Defined.

(** ** The balance residual and the coupled solve *)

(** The residual that one pass of the models hands to the solver, in terms
    of the inputs of [Motor]: the copper loss cancels. *)
Lemma balance_residual_eq (mp : Motor.Params) (u : Motor.Unknowns) :
  MotorBalance.apply_nonlinear
    (MotorGroup.balance_params (Motor.solve_nonlinear mp u))
  = (Motor.I0 mp + Motor.torque mp / Motor.k_t mp)
    * (Motor.w_operating mp / (Motor.k_v mp * np_pi / 30.0))
    - Motor.power_mech mp - Motor.power_windage_loss mp
    - Motor.power_iron_loss mp.
Proof.
  unfold MotorBalance.apply_nonlinear, MotorGroup.balance_params.
  cbn [MotorBalance.current MotorBalance.voltage MotorBalance.power_input].
  rewrite current_eq, voltage_eq, power_input_eq, np_power_2. ring.
Qed.

Section CoupledSolver.

Import MotorGroup.

Variable newton_update : SolverState -> outcome R.
Variable opts : NewtonOptions.
Variable dp : MotorSize.Params.

Lemma pass_iteration_gen (s : SolverState) :
  iteration (pass dp s) = iteration s.
Proof. reflexivity. Qed.

Lemma iterate_eq (fuel : nat) (s : SolverState) :
  iterate newton_update opts fuel dp s
  = if Rle_dec (Rabs (residual (pass dp s))) (atol opts) then
      Returns (accept (pass dp s))
    else
      match fuel with
      | O => Raises NonConvergenceError
      | S fuel' =>
          I0' <- newton_update (pass dp s) ;;
          iterate newton_update opts fuel' dp (next (pass dp s) I0')
      end.
Proof. destruct fuel; reflexivity. Qed.

Lemma advance_eq (k : nat) (s : SolverState) :
  advance newton_update k dp s
  = match k with
    | O => Returns (pass dp s)
    | S k' =>
        I0' <- newton_update (pass dp s) ;;
        advance newton_update k' dp (next (pass dp s) I0')
    end.
Proof. destruct k; reflexivity. Qed.

(** The residual of a pass is the residual of [MotorBalance] on the
    outputs of [Motor] for the guess and the sizing outputs of that pass. *)
Lemma pass_residual (s : SolverState) :
  residual (pass dp s)
  = MotorBalance.apply_nonlinear
      (balance_params
         (Motor.solve_nonlinear
            (motor_params dp (sizing (pass dp s)) (I0 (pass dp s))) Motor.init)).
Proof.
  unfold pass, evaluate_models.
  cbn [residual sizing I0]. reflexivity.
Qed.

(** Convergence is declared as soon as the tolerance is met. *)
Lemma iterate_converged (fuel : nat) (s : SolverState) :
  Rabs (residual (pass dp s)) <= atol opts ->
  iterate newton_update opts fuel dp s = Returns (accept (pass dp s)).
Proof.
  intros H. rewrite iterate_eq.
  destruct (Rle_dec _ _) as [_ | Hn]; [reflexivity | contradiction].
Qed.

(** A returned state is converged, within tolerance, and was reached
    within [fuel] updates. *)
Lemma iterate_returns (fuel : nat) :
  forall s s',
  iterate newton_update opts fuel dp s = Returns s' ->
  converged s' = true
  /\ Rabs (residual s') <= atol opts
  /\ (iteration s <= iteration s' <= iteration s + fuel)%nat
  /\ residual s'
     = MotorBalance.apply_nonlinear
         (balance_params
            (Motor.solve_nonlinear
               (motor_params dp (sizing s') (I0 s')) Motor.init)).
Proof.
  induction fuel as [| fuel IH]; intros s s' H; rewrite iterate_eq in H;
    destruct (Rle_dec _ _) as [Hle | Hgt].
  - injection H as <-. repeat split; try assumption; cbn; lia.
  - discriminate.
  - injection H as <-. repeat split; try assumption; cbn; lia.
  - destruct (newton_update (pass dp s)) as [I0' | e]; [| discriminate].
    cbn [bind] in H. apply IH in H.
    destruct H as (Hc & Hr & Hi & He).
    repeat split; try assumption; cbn in Hi; cbn; lia.
Qed.

(** A pass that misses the tolerance never ends the iteration where it
    stands. *)
Lemma iterate_not_converged (fuel : nat) (s s' : SolverState) :
  ~ Rabs (residual (pass dp s)) <= atol opts ->
  iterate newton_update opts fuel dp s = Returns s' ->
  (iteration s < iteration s')%nat.
Proof.
  intros Hgt H. rewrite iterate_eq in H.
  destruct (Rle_dec _ _) as [Hle | _]; [contradiction |].
  destruct fuel as [| fuel]; [discriminate |].
  destruct (newton_update (pass dp s)) as [I0' | e]; [| discriminate].
  cbn [bind] in H. apply iterate_returns in H.
  destruct H as (_ & _ & Hi & _). cbn in Hi. lia.
Qed.

(** When no pass within the cap meets the tolerance, the iteration ends
    with the non-convergence error. *)
Lemma iterate_exhausted (fuel : nat) :
  forall s,
  (forall k, (k <= fuel)%nat ->
     exists sk, advance newton_update k dp s = Returns sk
                /\ Rabs (residual sk) > atol opts) ->
  iterate newton_update opts fuel dp s = Raises NonConvergenceError.
Proof.
  induction fuel as [| fuel IH]; intros s H; rewrite iterate_eq.
  - destruct (H 0%nat (le_n _)) as (s0 & E0 & H0).
    rewrite advance_eq in E0. injection E0 as <-.
    destruct (Rle_dec _ _) as [Hle | _]; [lra | reflexivity].
  - destruct (H 0%nat (Nat.le_0_l _)) as (s0 & E0 & H0).
    rewrite advance_eq in E0. injection E0 as <-.
    destruct (Rle_dec _ _) as [Hle | _]; [lra |].
    destruct (H 1%nat ltac:(lia)) as (s1 & E1 & _).
    rewrite advance_eq in E1.
    destruct (newton_update (pass dp s)) as [I0' | e] eqn:Eu; [| discriminate].
    cbn [bind]. apply IH. intros k Hk.
    destruct (H (S k) ltac:(lia)) as (sk & Ek & Hrk).
    rewrite advance_eq, Eu in Ek. cbn [bind] in Ek.
    exists sk. split; assumption.
Qed.

Lemma advance_iteration (k : nat) :
  forall s0 s,
  advance newton_update k dp s0 = Returns s ->
  iteration s = (iteration s0 + k)%nat.
Proof.
  induction k as [| k IH]; intros s0 s H; rewrite advance_eq in H.
  - injection H as <-. rewrite pass_iteration_gen. lia.
  - destruct (newton_update (pass dp s0)) as [I0' | e]; [| discriminate].
    cbn [bind] in H. apply IH in H. rewrite H.
    unfold next. cbn [iteration]. rewrite pass_iteration_gen. lia.
Qed.

(** The iteration returns at the first pass that meets the tolerance, when
    that pass is within the cap. *)
Lemma iterate_first_hit (k : nat) :
  forall fuel s0 s,
  (k <= fuel)%nat ->
  advance newton_update k dp s0 = Returns s ->
  (forall j, (j < k)%nat ->
     exists sj, advance newton_update j dp s0 = Returns sj
                /\ Rabs (residual sj) > atol opts) ->
  Rabs (residual s) <= atol opts ->
  iterate newton_update opts fuel dp s0 = Returns (accept s).
Proof.
  induction k as [| k IH]; intros fuel s0 s Hk H Hbefore Hs;
    rewrite advance_eq in H.
  - injection H as <-. now apply iterate_converged.
  - destruct (Hbefore 0%nat ltac:(lia)) as (s' & E0 & H0).
    rewrite advance_eq in E0. injection E0 as <-.
    rewrite iterate_eq.
    destruct (Rle_dec _ _) as [Hle | _]; [lra |].
    destruct fuel as [| fuel]; [lia |].
    destruct (newton_update (pass dp s0)) as [I0' | e] eqn:Eu;
      [| discriminate].
    cbn [bind] in H |- *.
    apply (IH fuel _ s); [lia | exact H | | exact Hs].
    intros j Hj. destruct (Hbefore (S j) ltac:(lia)) as (sj & Ej & Hrj).
    rewrite advance_eq, Eu in Ej. cbn [bind] in Ej.
    exists sj. split; assumption.
Qed.

(** An update that fails before the cap is reached ends the iteration with
    the error of the update. *)
Lemma iterate_aborted (k : nat) :
  forall fuel s0 s e,
  (k < fuel)%nat ->
  advance newton_update k dp s0 = Returns s ->
  (forall j, (j <= k)%nat ->
     exists sj, advance newton_update j dp s0 = Returns sj
                /\ Rabs (residual sj) > atol opts) ->
  newton_update s = Raises e ->
  iterate newton_update opts fuel dp s0 = Raises e.
Proof.
  induction k as [| k IH]; intros fuel s0 s e Hk H Hall He;
    rewrite advance_eq in H;
    destruct (Hall 0%nat ltac:(lia)) as (s' & E0 & H0);
    rewrite advance_eq in E0; injection E0 as <-;
    rewrite iterate_eq;
    (destruct (Rle_dec _ _) as [Hle | _]; [lra |]);
    (destruct fuel as [| fuel]; [lia |]).
  - injection H as <-. rewrite He. reflexivity.
  - destruct (newton_update (pass dp s0)) as [I0' | e'] eqn:Eu;
      [| discriminate].
    cbn [bind] in H |- *.
    apply (IH fuel _ s e); [lia | exact H | | exact He].
    intros j Hj. destruct (Hall (S j) ltac:(lia)) as (sj & Ej & Hrj).
    rewrite advance_eq, Eu in Ej. cbn [bind] in Ej.
    exists sj. split; assumption.
Qed.

End CoupledSolver.

Section LinearSolve.

Import MotorGroup.

Variable m : LinearMethod.
Variables jac rhs : R.

Lemma linear_iterate_first_hit (k : nat) :
  forall fuel x,
  (k <= fuel)%nat ->
  ln_done m jac rhs (Nat.iter k (ln_step m jac rhs) x) = true ->
  (forall j, (j < k)%nat ->
     ln_done m jac rhs (Nat.iter j (ln_step m jac rhs) x) = false) ->
  linear_iterate m fuel jac rhs x
  = Returns (Nat.iter k (ln_step m jac rhs) x).
Proof.
  induction k as [| k IH]; intros fuel x Hk Hd Hbefore.
  - cbn [Nat.iter nat_rect] in *. destruct fuel; cbn [linear_iterate];
      now rewrite Hd.
  - destruct fuel as [| fuel]; [lia |]. cbn [linear_iterate].
    pose proof (Hbefore 0%nat ltac:(lia)) as H0.
    cbn [Nat.iter nat_rect] in H0. rewrite H0.
    rewrite Nat.iter_succ_r. apply IH; [lia | |].
    + now rewrite <- Nat.iter_succ_r.
    + intros j Hj. rewrite <- Nat.iter_succ_r. apply Hbefore. lia.
Qed.

Lemma linear_iterate_exhausted (fuel : nat) :
  forall x,
  (forall k, (k <= fuel)%nat ->
     ln_done m jac rhs (Nat.iter k (ln_step m jac rhs) x) = false) ->
  linear_iterate m fuel jac rhs x = Raises LinearSolveError.
Proof.
  induction fuel as [| fuel IH]; intros x H; cbn [linear_iterate];
    pose proof (H 0%nat ltac:(lia)) as H0;
    cbn [Nat.iter nat_rect] in H0; rewrite H0; [reflexivity |].
  apply IH. intros k Hk. rewrite <- Nat.iter_succ_r. apply H. lia.
Qed.

End LinearSolve.

Lemma pass_I0 (dp : MotorSize.Params) (s : MotorGroup.SolverState) :
  MotorGroup.I0 (MotorGroup.pass dp s) = MotorGroup.I0 s.
Proof. reflexivity. Qed.

Lemma pass_iteration (dp : MotorSize.Params) (s : MotorGroup.SolverState) :
  MotorGroup.iteration (MotorGroup.pass dp s) = MotorGroup.iteration s.
Proof. reflexivity. Qed.

Lemma pass_sizing (dp : MotorSize.Params) (s : MotorGroup.SolverState) :
  MotorGroup.sizing (MotorGroup.pass dp s)
  = MotorSize.solve_nonlinear dp (MotorGroup.sizing s).
Proof. reflexivity. Qed.

(** The residual of a pass in terms of the sizing outputs of that pass. *)
Lemma pass_residual_eq (dp : MotorSize.Params) (s : MotorGroup.SolverState) :
  let sz := MotorSize.solve_nonlinear dp (MotorGroup.sizing s) in
  let mp := MotorGroup.motor_params dp sz (MotorGroup.I0 s) in
  MotorGroup.residual (MotorGroup.pass dp s)
  = (MotorGroup.I0 s + MotorSize.torque sz / Motor.k_t mp)
    * (MotorSize.w_operating sz / (Motor.k_v mp * np_pi / 30.0))
    - MotorSize.power_mech sz - MotorSize.power_windage_loss sz
    - MotorSize.power_iron_loss sz.
Proof.
  cbv zeta. rewrite pass_residual, pass_sizing, pass_I0.
  now rewrite balance_residual_eq.
Qed.

(** *** The failure scenario: [max_current = 1.0] under the guess [40.0] *)

Lemma l_base_nonneg (p : MotorSize.Params) (u : MotorSize.Unknowns) :
  0 < MotorSize.max_rpm p -> 0 < MotorSize.kappa p ->
  0 < MotorSize.design_power p -> 0 < MotorSize.L_D_ratio p ->
  0 <= MotorSize.l_base (MotorSize.solve_nonlinear p u).
Proof.
  intros Hr Hk Hp HL. rewrite l_base_eq, d_base_eq.
  pose proof (D2L_pos p u Hr Hk Hp) as HD.
  assert (H : 0 < np_power
                    (MotorSize.D2L (MotorSize.solve_nonlinear p u)
                     / MotorSize.L_D_ratio p) (1.0 / 3.0)).
  { apply np_power_gt0. now apply Rdiv_lt_0_compat. }
  apply Rmult_le_pos; lra.
Qed.

Lemma failure_scenario_pass (s : MotorGroup.SolverState) :
  let dp := MotorSize.with_max_current 1.0 MotorSize.example_params in
  MotorGroup.I0 s = 40.0 ->
  0 <= MotorSize.w_operating (MotorGroup.sizing s) ->
  0 <= MotorSize.l_base (MotorGroup.sizing s) ->
  MotorGroup.residual (MotorGroup.pass dp s) < -1
  /\ 0 <= MotorSize.w_operating (MotorGroup.sizing (MotorGroup.pass dp s))
  /\ 0 <= MotorSize.l_base (MotorGroup.sizing (MotorGroup.pass dp s)).
Proof.
  intros dp HI Hw Hl. pose proof PI_RGT_0 as Hpi.
  split; [| split].
  - pose proof (pass_residual_eq dp s) as E. cbv zeta in E. rewrite E.
    unfold Motor.k_t, Motor.k_v.
    cbn [MotorGroup.motor_params Motor.max_current Motor.I0
         Motor.max_torque].
    rewrite HI, power_mech_eq, power_windage_loss_eq, power_iron_loss_eq,
      torque_eq, max_torque_eq, w_operating_eq.
    unfold np_pi.
    cbn [dp MotorSize.with_max_current MotorSize.example_params
         MotorSize.max_current MotorSize.speed MotorSize.design_power
         MotorSize.max_rpm MotorSize.kappa MotorSize.core_radius_ratio
         MotorSize.pole_pairs].
    set (X := MotorSize.w_operating (MotorGroup.sizing s)) in *.
    set (Pi := MotorSize.calculate_iron_loss _ _ _ _ _).
    assert (HPi : 0 <= Pi).
    { apply calculate_iron_loss_nonneg; [lra | assumption | lra]. }
    set (T := 110000 / (2500.0 * 2.0 * PI / 60.0)).
    assert (HT : 0 < T).
    { unfold T. apply Rdiv_lt_0_compat; [lra |].
      apply Rdiv_lt_0_compat; [nra | lra]. }
    assert (HXT : 0 <= X * T) by (apply Rmult_le_pos; lra).
    assert (E1 : (40.0
                  + T / (30.0 / PI * 1.0
                         / ((1.0 - 40.0)
                            / (110000 / (0.5 * (2500.0 * 2.0 * PI / 60.0)))
                            * 30.0 / PI)))
                 * (1900.0 * 2 * PI / 60.0
                    / ((1.0 - 40.0)
                       / (110000 / (0.5 * (2500.0 * 2.0 * PI / 60.0)))
                       * 30.0 / PI * PI / 30.0))
                 = - (20.5 * 167200 / 39)).
    { unfold T. decimals. field. lra. }
    rewrite E1. lra.
  - rewrite pass_sizing, w_operating_eq. unfold np_pi.
    cbn [dp MotorSize.with_max_current MotorSize.example_params
         MotorSize.speed].
    nra.
  - rewrite pass_sizing. apply l_base_nonneg;
      cbn [dp MotorSize.with_max_current MotorSize.example_params
           MotorSize.max_rpm MotorSize.kappa MotorSize.design_power
           MotorSize.L_D_ratio]; lra.
Qed.

Lemma failure_scenario_advance
    (nu : MotorGroup.SolverState -> outcome R) (k : nat) :
  (forall s, exists v, nu s = Returns v /\ v = MotorGroup.I0 s) ->
  forall s,
  MotorGroup.I0 s = 40.0 ->
  0 <= MotorSize.w_operating (MotorGroup.sizing s) ->
  0 <= MotorSize.l_base (MotorGroup.sizing s) ->
  exists s',
    MotorGroup.advance nu k
      (MotorSize.with_max_current 1.0 MotorSize.example_params) s
    = Returns s'
    /\ Rabs (MotorGroup.residual s') > 0.0001.
Proof.
  intros Hnu.
  induction k as [| k IH]; intros s HI Hw Hl; rewrite advance_eq;
    destruct (failure_scenario_pass s HI Hw Hl) as (Hr & Hw' & Hl').
  - eexists. split; [reflexivity |].
    rewrite Rabs_left by lra. lra.
  - destruct (Hnu (MotorGroup.pass
                     (MotorSize.with_max_current 1.0 MotorSize.example_params)
                     s)) as (v & Ev & Hv).
    rewrite Ev. cbn [bind]. apply IH; [| exact Hw' | exact Hl'].
    unfold MotorGroup.next. cbn [MotorGroup.I0].
    rewrite Hv, pass_I0. exact HI.
Qed.

(** C3.  [MotorBalance.apply_nonlinear] returns
    [current * voltage - power_input]; the solver is configured with the
    tolerance [1e-4] and the cap [1000]; a solve returns only a state whose
    flag is set, whose residual is that of the balance on the outputs of
    the electrical model and is at most [1e-4] in absolute value, reached
    within [1000] iterations; and an iteration ends the solve where it
    stands exactly when its absolute residual is at most [1e-4]. *)
Theorem balance_residual_and_convergence
    (newton_update : MotorGroup.SolverState -> outcome R)
    (dp : MotorSize.Params) :
  (forall bp : MotorBalance.Params,
     MotorBalance.apply_nonlinear bp
     = MotorBalance.current bp * MotorBalance.voltage bp
       - MotorBalance.power_input bp)
  /\ MotorGroup.atol MotorGroup.nl_solver = 0.0001
  /\ MotorGroup.nl_maxiter MotorGroup.nl_solver = 1000%nat
  /\ (forall s,
        MotorGroup.solve newton_update dp = Returns s ->
        MotorGroup.converged s = true
        /\ Rabs (MotorGroup.residual s) <= 0.0001
        /\ (MotorGroup.iteration s <= 1000)%nat
        /\ MotorGroup.residual s
           = (let m :=
                Motor.solve_nonlinear
                  (MotorGroup.motor_params dp (MotorGroup.sizing s)
                     (MotorGroup.I0 s))
                  Motor.init in
              Motor.current m * Motor.voltage m - Motor.power_input m))
  /\ (forall fuel s,
        Rabs (MotorGroup.residual (MotorGroup.pass dp s)) <= 0.0001
        <-> MotorGroup.iterate newton_update MotorGroup.nl_solver fuel dp s
            = Returns (MotorGroup.accept (MotorGroup.pass dp s))).
Proof.
  split; [reflexivity |]. split; [reflexivity |]. split; [reflexivity |].
  split.
  - intros s H. unfold MotorGroup.solve in H.
    apply iterate_returns in H. destruct H as (Hc & Hr & Hi & He).
    split; [exact Hc |]. split; [exact Hr |].
    split; [cbn in Hi; lia | exact He].
  - intros fuel s. split.
    + intros H.
      exact (iterate_converged newton_update MotorGroup.nl_solver dp fuel s H).
    + intros H.
      destruct (Rle_dec (Rabs (MotorGroup.residual (MotorGroup.pass dp s)))
                  0.0001) as [Hle | Hgt]; [exact Hle | exfalso].
      apply (iterate_not_converged newton_update MotorGroup.nl_solver dp
               fuel s _ Hgt) in H.
      unfold MotorGroup.accept in H. cbn [MotorGroup.iteration] in H.
      rewrite pass_iteration in H. lia.
Qed.

(** C8.  The solver starts from [I0 = 40.0] and the iteration count [0].
    The Newton iteration is capped at [1000]: a solve returns at the first
    iteration, up to the thousandth, whose residual meets the tolerance, and
    when no iteration up to the thousandth meets it the solve ends with the
    non-convergence error.  The linear solve of each Newton update is
    capped at [100]: it returns at the first of its iterations, up to the
    hundredth, that meets its test, and fails with the error of the linear
    solve otherwise; that failure ends the coupled solve with the same
    error, distinct from non-convergence.  A solve never returns a state
    that is not converged within the tolerance. *)
Theorem newton_cap_reported
    (m : MotorGroup.LinearMethod) (lz : MotorGroup.Linearisation)
    (dp : MotorSize.Params) :
  let nu := MotorGroup.newton_update m lz in
  MotorGroup.I0 MotorGroup.INIT = 40.0
  /\ MotorGroup.iteration MotorGroup.INIT = 0%nat
  /\ MotorGroup.nl_maxiter MotorGroup.nl_solver = 1000%nat
  /\ MotorGroup.ln_maxiter MotorGroup.ln_solver = 100%nat
  /\ (forall k s,
        (k <= 1000)%nat ->
        MotorGroup.advance nu k dp MotorGroup.INIT = Returns s ->
        (forall j, (j < k)%nat ->
           exists sj,
             MotorGroup.advance nu j dp MotorGroup.INIT = Returns sj
             /\ Rabs (MotorGroup.residual sj) > 0.0001) ->
        Rabs (MotorGroup.residual s) <= 0.0001 ->
        MotorGroup.coupled_solve m lz dp = Returns (MotorGroup.accept s)
        /\ MotorGroup.iteration s = k)
  /\ ((forall k, (k <= 1000)%nat ->
         exists s,
           MotorGroup.advance nu k dp MotorGroup.INIT = Returns s
           /\ Rabs (MotorGroup.residual s) > 0.0001) ->
      MotorGroup.coupled_solve m lz dp = Raises NonConvergenceError)
  /\ (forall k s,
        (k < 1000)%nat ->
        MotorGroup.advance nu k dp MotorGroup.INIT = Returns s ->
        (forall j, (j <= k)%nat ->
           exists sj,
             MotorGroup.advance nu j dp MotorGroup.INIT = Returns sj
             /\ Rabs (MotorGroup.residual sj) > 0.0001) ->
        MotorGroup.linear_solve m (MotorGroup.jacobian lz s)
          (- MotorGroup.residual s)
        = Raises LinearSolveError ->
        MotorGroup.coupled_solve m lz dp = Raises LinearSolveError)
  /\ (forall jac rhs k,
        (k <= 100)%nat ->
        MotorGroup.ln_done m jac rhs
          (Nat.iter k (MotorGroup.ln_step m jac rhs) 0) = true ->
        (forall j, (j < k)%nat ->
           MotorGroup.ln_done m jac rhs
             (Nat.iter j (MotorGroup.ln_step m jac rhs) 0) = false) ->
        MotorGroup.linear_solve m jac rhs
        = Returns (Nat.iter k (MotorGroup.ln_step m jac rhs) 0))
  /\ (forall jac rhs,
        (forall k, (k <= 100)%nat ->
           MotorGroup.ln_done m jac rhs
             (Nat.iter k (MotorGroup.ln_step m jac rhs) 0) = false) ->
        MotorGroup.linear_solve m jac rhs = Raises LinearSolveError)
  /\ (forall s,
        MotorGroup.coupled_solve m lz dp = Returns s ->
        MotorGroup.converged s = true
        /\ Rabs (MotorGroup.residual s) <= 0.0001).
Proof.
  intros nu.
  split; [reflexivity |]. split; [reflexivity |]. split; [reflexivity |].
  split; [reflexivity |]. split; [| split; [| split; [| split; [| split]]]].
  - intros k s Hk H Hbefore Hs. split.
    + exact (iterate_first_hit nu MotorGroup.nl_solver dp k 1000
               MotorGroup.INIT s Hk H Hbefore Hs).
    + apply (advance_iteration nu dp k) in H. exact H.
  - intros H.
    exact (iterate_exhausted nu MotorGroup.nl_solver dp 1000
             MotorGroup.INIT H).
  - intros k s Hk H Hall Hl.
    apply (iterate_aborted nu MotorGroup.nl_solver dp k 1000
             MotorGroup.INIT s LinearSolveError Hk H Hall).
    unfold nu, MotorGroup.newton_update. rewrite Hl. reflexivity.
  - intros jac rhs k Hk Hd Hbefore.
    exact (linear_iterate_first_hit m jac rhs k 100 0 Hk Hd Hbefore).
  - intros jac rhs H.
    exact (linear_iterate_exhausted m jac rhs 100 0 H).
  - intros s H. unfold MotorGroup.coupled_solve, MotorGroup.solve in H.
    apply iterate_returns in H. destruct H as (Hc & Hr & _).
    split; [exact Hc | exact Hr].
Qed.

Lemma newton_cap_reported_witness :
  let dp := MotorSize.with_max_current 1.0 MotorSize.example_params in
  let lz :=
    {| MotorGroup.jacobian := fun _ => 1; MotorGroup.damping := 1 |} in
  let stops :=
    {| MotorGroup.ln_step := fun _ _ x => x;
       MotorGroup.ln_done := fun _ _ _ => true |} in
  let stalls :=
    {| MotorGroup.ln_step := fun _ _ x => x;
       MotorGroup.ln_done := fun _ _ _ => false |} in
  MotorGroup.coupled_solve stops lz dp = Raises NonConvergenceError
  /\ MotorGroup.coupled_solve stalls lz dp = Raises LinearSolveError.
Proof.
  intros dp lz stops stalls. split.
  - apply (proj1 (proj2 (proj2 (proj2 (proj2 (proj2
             (newton_cap_reported stops lz dp))))))).
    intros k _. apply failure_scenario_advance.
    + intros s. eexists. split; [reflexivity |].
      cbn [MotorGroup.damping lz]. ring.
    + reflexivity.
    + cbn [MotorGroup.INIT MotorGroup.sizing MotorSize.init
           MotorSize.w_operating]. lra.
    + cbn [MotorGroup.INIT MotorGroup.sizing MotorSize.init
           MotorSize.l_base]. lra.
  - destruct (failure_scenario_pass MotorGroup.INIT) as (Hr & _ & _).
    + reflexivity.
    + cbn [MotorGroup.INIT MotorGroup.sizing MotorSize.init
           MotorSize.w_operating]. lra.
    + cbn [MotorGroup.INIT MotorGroup.sizing MotorSize.init
           MotorSize.l_base]. lra.
    + fold dp in Hr.
      apply (proj1 (proj2 (proj2 (proj2 (proj2 (proj2 (proj2
               (newton_cap_reported stalls lz dp))))))) 0%nat
               (MotorGroup.pass dp MotorGroup.INIT)).
      * lia.
      * reflexivity.
      * intros j Hj. assert (j = 0%nat) as -> by lia.
        eexists. split; [reflexivity |].
        rewrite Rabs_left by lra. lra.
      * reflexivity.
Defined.

(** *** A converging solve: the example run with an update that lands on
    the root of the balance *)

Lemma example_w_operating_times_max_torque (u u' : MotorSize.Unknowns) :
  MotorSize.w_operating (MotorSize.solve_nonlinear MotorSize.example_params u)
  * MotorSize.max_torque
      (MotorSize.solve_nonlinear MotorSize.example_params u')
  = 167200.
Proof.
  rewrite w_operating_eq, max_torque_eq. unfold np_pi.
  cbn [MotorSize.example_params MotorSize.speed MotorSize.design_power
       MotorSize.max_rpm MotorSize.kappa].
  decimals. pose proof PI_RGT_0. field. lra.
Qed.

Lemma example_settled_iron_loss_nonneg :
  0 <= MotorSize.power_iron_loss (MotorGroup.settled MotorSize.example_params).
Proof.
  unfold MotorGroup.settled. cbn [MotorSize.run].
  rewrite power_iron_loss_eq.
  apply calculate_iron_loss_nonneg;
    cbn [MotorSize.example_params MotorSize.core_radius_ratio
         MotorSize.speed MotorSize.pole_pairs]; try lra.
  apply l_base_nonneg;
    cbn [MotorSize.example_params MotorSize.max_rpm MotorSize.kappa
         MotorSize.design_power MotorSize.L_D_ratio]; lra.
Qed.

Lemma example_root_residual (s : MotorGroup.SolverState) :
  let dp := MotorSize.example_params in
  MotorGroup.I0 s = MotorGroup.balance_root dp ->
  MotorGroup.sizing s = MotorSize.solve_nonlinear dp MotorSize.init ->
  MotorGroup.residual (MotorGroup.pass dp s) = 0.
Proof.
  intros dp HI Hs. pose proof PI_RGT_0 as Hpi.
  pose proof (pass_residual_eq dp s) as E. cbv zeta in E. rewrite E.
  clear E. rewrite HI, Hs.
  unfold Motor.k_t, Motor.k_v.
  cbn [MotorGroup.motor_params Motor.max_current Motor.I0 Motor.max_torque].
  unfold MotorGroup.balance_root. cbv zeta.
  pose proof example_settled_iron_loss_nonneg as HP.
  unfold MotorGroup.settled in *. cbn [MotorSize.run] in *.
  fold dp in HP |- *.
  rewrite (example_w_operating_times_max_torque _ _).
  set (P := MotorSize.power_iron_loss _) in *.
  rewrite power_mech_eq, power_windage_loss_eq.
  rewrite !w_operating_eq, !torque_eq, !max_torque_eq.
  unfold np_pi.
  cbn [dp MotorSize.example_params MotorSize.max_current MotorSize.speed
       MotorSize.design_power MotorSize.max_rpm MotorSize.kappa].
  clearbody P. decimals. field.
  repeat split; lra.
Qed.

Lemma example_solve_converges :
  let dp := MotorSize.example_params in
  exists s,
    MotorGroup.solve (fun _ => Returns (MotorGroup.balance_root dp)) dp
    = Returns s
    /\ (MotorGroup.iteration s <= 1)%nat.
Proof.
  intros dp. unfold MotorGroup.solve.
  change (MotorGroup.nl_maxiter MotorGroup.nl_solver) with (S 999).
  rewrite iterate_eq.
  destruct (Rle_dec _ _) as [Hle | Hgt].
  - eexists. split; [reflexivity |].
    unfold MotorGroup.accept. cbn [MotorGroup.iteration].
    rewrite pass_iteration. cbn [MotorGroup.INIT MotorGroup.iteration]. lia.
  - cbn [bind]. rewrite iterate_converged.
    + eexists. split; [reflexivity |].
      unfold MotorGroup.accept. cbn [MotorGroup.iteration].
      rewrite pass_iteration.
      unfold MotorGroup.next. cbn [MotorGroup.iteration].
      rewrite pass_iteration. cbn [MotorGroup.INIT MotorGroup.iteration]. lia.
    + pose proof (example_root_residual
                    (MotorGroup.next (MotorGroup.pass dp MotorGroup.INIT)
                       (MotorGroup.balance_root dp))) as E.
      cbv zeta in E. fold dp in E. rewrite E.
      * rewrite Rabs_R0. cbn [MotorGroup.atol MotorGroup.nl_solver]. lra.
      * reflexivity.
      * unfold MotorGroup.next. cbn [MotorGroup.sizing].
        now rewrite pass_sizing.
Qed.

Lemma balance_residual_and_convergence_witness :
  let dp := MotorSize.example_params in
  exists s,
    MotorGroup.solve (fun _ => Returns (MotorGroup.balance_root dp)) dp
    = Returns s
    /\ MotorGroup.converged s = true
    /\ Rabs (MotorGroup.residual s) <= 0.0001
    /\ (MotorGroup.iteration s <= 1000)%nat.
Proof.
  intros dp. destruct example_solve_converges as (s & Hs & _).
  fold dp in Hs. exists s. split; [exact Hs |].
  destruct (proj1 (proj2 (proj2 (proj2
              (balance_residual_and_convergence
                 (fun _ => Returns (MotorGroup.balance_root dp)) dp))))
              s Hs) as (Hc & Hr & Hi & _).
  split; [exact Hc |]. split; [exact Hr | exact Hi].
Defined.

(** * Further properties of the components *)

(** ** Repeated evaluations of [MotorSize] *)

(** X1.  From the second evaluation on, the vector of [MotorSize] is a
    function of the parameters alone: any number of evaluations, at least
    two, from any starting vector gives the vector of two evaluations from
    any other starting vector. *)
Theorem sizing_settled_after_two
    (n : nat) (p : MotorSize.Params) (u u' : MotorSize.Unknowns) :
  MotorSize.run (2 + n) p u = MotorSize.run 2 p u'.
Proof.
  rewrite run_settles. cbn [MotorSize.run].
  apply solve_nonlinear_twice_independent.
Qed.

(** X2.  After two evaluations the outputs are consistent with each other:
    [power_mech] is the product of the stored [w_operating] and [torque],
    and the losses are those of the stored [d_base] and [l_base]. *)
Theorem settled_outputs_consistent
    (p : MotorSize.Params) (u : MotorSize.Unknowns) :
  let sz := MotorSize.solve_nonlinear p (MotorSize.solve_nonlinear p u) in
  MotorSize.power_mech sz = MotorSize.w_operating sz * MotorSize.torque sz
  /\ MotorSize.power_iron_loss sz
     = MotorSize.calculate_iron_loss (MotorSize.d_base sz) (MotorSize.speed p)
         (MotorSize.l_base sz) (MotorSize.core_radius_ratio p)
         (MotorSize.pole_pairs p)
  /\ MotorSize.winding_resistance sz
     = MotorSize.calculate_copper_loss (MotorSize.d_base sz)
         (MotorSize.max_current p) (MotorSize.n_phases p)
  /\ MotorSize.power_windage_loss sz
     = MotorSize.calculate_windage_loss (MotorSize.w_operating sz)
         (MotorSize.d_base sz) (MotorSize.l_base sz).
Proof.
  cbv zeta.
  split; [sizing; reflexivity |].
  split; [sizing; reflexivity |].
  split; sizing; reflexivity.
Qed.

(** X20.  One evaluation already fixes nine of the twelve outputs: [w_base],
    [max_torque], [torque], [w_operating], [power_windage_loss], [D2L],
    [d_base], [l_base] and [mass] do not depend on the vector the
    evaluation starts from.  (The other three, [power_mech],
    [power_iron_loss] and [winding_resistance], do.) *)
Theorem fresh_outputs_independent_of_start
    (p : MotorSize.Params) (u u' : MotorSize.Unknowns) :
  let s := MotorSize.solve_nonlinear p u in
  let s' := MotorSize.solve_nonlinear p u' in
  MotorSize.w_base s = MotorSize.w_base s'
  /\ MotorSize.max_torque s = MotorSize.max_torque s'
  /\ MotorSize.torque s = MotorSize.torque s'
  /\ MotorSize.w_operating s = MotorSize.w_operating s'
  /\ MotorSize.power_windage_loss s = MotorSize.power_windage_loss s'
  /\ MotorSize.D2L s = MotorSize.D2L s'
  /\ MotorSize.d_base s = MotorSize.d_base s'
  /\ MotorSize.l_base s = MotorSize.l_base s'
  /\ MotorSize.mass s = MotorSize.mass s'.
Proof.
  cbv zeta.
  split; [sizing; reflexivity |]. split; [sizing; reflexivity |].
  split; [sizing; reflexivity |]. split; [sizing; reflexivity |].
  split; [sizing; reflexivity |]. split; [sizing; reflexivity |].
  split; [sizing; reflexivity |]. split; sizing; reflexivity.
Qed.



(** ** The electrical model *)

(** X11.  [Motor] keeps no state: every output is overwritten, so the
    result does not depend on the vector the evaluation starts from (unlike
    [MotorSize]). *)
Theorem motor_outputs_independent_of_start
    (params : Motor.Params) (u u' : Motor.Unknowns) :
  Motor.solve_nonlinear params u = Motor.solve_nonlinear params u'.
Proof. electrical. reflexivity. Qed.

(** X22.  The number of phases enters the phase current only, and the
    number of pole pairs the frequency only: with another [n_phases] the
    five other outputs are unchanged, and with another [pole_pairs] the five
    other outputs are unchanged. *)
Theorem phase_and_pole_counts_local
    (params : Motor.Params) (v : R) (u : Motor.Unknowns) :
  let s := Motor.solve_nonlinear params u in
  let sn := Motor.solve_nonlinear (Motor.with_n_phases v params) u in
  let sp := Motor.solve_nonlinear (Motor.with_pole_pairs v params) u in
  (Motor.current sn = Motor.current s
   /\ Motor.voltage sn = Motor.voltage s
   /\ Motor.phase_voltage sn = Motor.phase_voltage s
   /\ Motor.frequency sn = Motor.frequency s
   /\ Motor.power_input sn = Motor.power_input s)
  /\ (Motor.current sp = Motor.current s
      /\ Motor.phase_current sp = Motor.phase_current s
      /\ Motor.voltage sp = Motor.voltage s
      /\ Motor.phase_voltage sp = Motor.phase_voltage s
      /\ Motor.power_input sp = Motor.power_input s).
Proof.
  cbv zeta.
  split; (split; [electrical; reflexivity |]);
    (split; [electrical; reflexivity |]);
    (split; [electrical; reflexivity |]);
    split; electrical; reflexivity.
Qed.

(** ** [MotorSize] on binary64 numbers *)

(** X23.  On binary64 numbers as on the reals, a call of [MotorSize] that
    returns is followed by calls that return, and from the second call on
    the vector no longer changes, whatever [pow] the C library provides. *)
Theorem evaluate64_settles
    (libm_pow : float -> float -> float) (p : MotorSize64.Params)
    (u s1 : MotorSize64.Unknowns) :
  MotorSize64.evaluate libm_pow p u = Returns s1 ->
  exists s2,
    MotorSize64.evaluate libm_pow p s1 = Returns s2
    /\ MotorSize64.evaluate libm_pow p s2 = Returns s2.
Proof.
  unfold MotorSize64.evaluate, MotorSize64.py_div. cbv zeta.
  destruct (PrimFloat.eqb _ 0); [discriminate |].
  cbn [bind]. intros H. injection H as <-.
  eexists. split; reflexivity.
Qed.

Lemma evaluate64_settles_witness :
  let libm_pow := fun x _ : float => x in
  exists s1 s2,
    MotorSize64.evaluate libm_pow MotorSize64.example_params MotorSize64.init
    = Returns s1
    /\ MotorSize64.evaluate libm_pow MotorSize64.example_params s1
       = Returns s2
    /\ MotorSize64.evaluate libm_pow MotorSize64.example_params s2
       = Returns s2.
Proof.
  intros libm_pow.
  assert (E : exists s1,
            MotorSize64.evaluate libm_pow MotorSize64.example_params
              MotorSize64.init = Returns s1).
  { eexists. unfold MotorSize64.evaluate, MotorSize64.py_div. cbv zeta.
    replace (PrimFloat.eqb
               (MotorSize64.max_rpm MotorSize64.example_params * 2.0
                * MotorSize64.np_pi / 60.0) 0)%float
      with false by (vm_compute; reflexivity).
    cbn [bind]. reflexivity. }
  destruct E as (s1 & E1). exists s1.
  destruct (evaluate64_settles libm_pow MotorSize64.example_params
              MotorSize64.init s1 E1) as (s2 & E2 & E3).
  exists s2. split; [exact E1 |]. split; [exact E2 | exact E3].
Defined.
